(** * Audio Summariser: the recorder page (src/app/page.tsx)

    A shallow embedding of the [AudioRecorderPage] component: its email
    validation, its three handlers ([startRecording], [stopRecording],
    [processAudio]), the two callbacks it installs on the [MediaRecorder]
    and the part of the JSX that decides which button is offered.

    JavaScript strings are sequences of UTF-16 code units; the browser
    (media devices, recorder, network) is an environment whose answers are
    parameters of the handlers, and whose resources live in a [World]. *)

From Stdlib Require Import NArith Ascii String.
From stdpp Require Import base list gmap.

Open Scope N_scope.

(** ** JavaScript strings *)

Module Js.

Definition code_unit := N.
Definition jsstring := list code_unit.

(** A source literal (ASCII only in this file) as a JavaScript string. *)
Definition lit (s : string) : jsstring :=
  map N_of_ascii (list_ascii_of_string s).

Definition AT : code_unit := 64.      (* @ *)
Definition DOT : code_unit := 46.     (* . *)
Definition DQUOTE : code_unit := 34.  (* double quote *)

(** The class [\s] of ECMAScript: WhiteSpace and LineTerminator. *)
Definition is_space (c : code_unit) : bool :=
  (c =? 9) || (c =? 10) || (c =? 11) || (c =? 12) || (c =? 13) || (c =? 32)
  || (c =? 160) || (c =? 5760) || ((8192 <=? c) && (c <=? 8202))
  || (c =? 8232) || (c =? 8233) || (c =? 8239) || (c =? 8287)
  || (c =? 12288) || (c =? 65279).

(** Truthiness of a string: only the empty string is falsy. *)
Definition truthy (s : jsstring) : bool :=
  match s with [] => false | _ :: _ => true end.

End Js.
Import Js.

(** ** Regular expressions: the fragment used by [validateEmail] *)

Module Regex.

(** A character class is its membership test; [PlusNotIn p] is one or
    more characters outside the class [p]. *)
Inductive regex : Type :=
| Chr (c : code_unit)                 (* a literal character *)
| PlusNotIn (p : code_unit -> bool)   (* [^...]+, greedy *)
| Cat (r1 r2 : regex).

(** Greedy [[^p]+] followed by the continuation [k]: take one character
    outside [p], then prefer taking more, and fall back to [k]. *)
Fixpoint plus_not_in (p : code_unit -> bool) (s : jsstring)
    (k : jsstring -> bool) : bool :=
  match s with
  | [] => false
  | c :: s' => negb (p c) && (plus_not_in p s' k || k s')
  end.

(** Backtracking matcher in continuation-passing style. *)
Fixpoint matches (r : regex) (s : jsstring) (k : jsstring -> bool) : bool :=
  match r with
  | Chr c => match s with
             | c' :: s' => (c' =? c) && k s'
             | [] => false
             end
  | PlusNotIn p => plus_not_in p s k
  | Cat r1 r2 => matches r1 s (fun s' => matches r2 s' k)
  end.

(** [/^r$/.test(s)]: the match starts at index 0 and must end at the end
    of the input (no [g], [y] or [m] flag). *)
Definition test_anchored (r : regex) (s : jsstring) : bool :=
  matches r s (fun rest => match rest with [] => true | _ => false end).

(** The language of a regex, for reasoning. *)
Fixpoint lang (r : regex) (s : jsstring) : Prop :=
  match r with
  | Chr c => s = [c]
  | PlusNotIn p => s <> [] /\ Forall (fun c => p c = false) s
  | Cat r1 r2 => exists s1 s2, s = s1 ++ s2 /\ lang r1 s1 /\ lang r2 s2
  end.

End Regex.
Import Regex.

(** ** validateEmail *)

Definition space_or_at (c : code_unit) : bool := is_space c || (c =? AT).
Definition dquote (c : code_unit) : bool := c =? DQUOTE.

(** The literal [/^[^\s@]+@[^Q]+\.[^\s@]+$/], where Q stands for the
    double-quote character (code unit 34). *)
Definition email_regex : regex :=
  Cat (PlusNotIn space_or_at)
   (Cat (Chr AT)
    (Cat (PlusNotIn dquote)
     (Cat (Chr DOT)
          (PlusNotIn space_or_at)))).

Definition validateEmail (email : jsstring) : bool :=
  test_anchored email_regex email.

(** The pattern in the words of the specification: one or more
    non-whitespace-non-"@" characters, "@", one or more non-quote
    characters, ".", one or more non-whitespace-non-"@" characters. *)
Definition plain (c : code_unit) : Prop := is_space c = false /\ c <> AT.
Definition unquoted (c : code_unit) : Prop := c <> DQUOTE.

Definition spec_email_pattern (s : jsstring) : Prop :=
  exists l d t,
    s = l ++ AT :: d ++ DOT :: t /\
    l <> [] /\ Forall plain l /\
    d <> [] /\ Forall unquoted d /\
    t <> [] /\ Forall plain t.


(** ** Browser values *)

Record Blob := { blob_bytes : list Byte.byte; blob_type : string }.

Definition blob_size (b : Blob) : nat := length (blob_bytes b).

(** [new Blob(parts, { type })]: the bytes of the parts, in order. *)
Definition new_Blob (parts : list Blob) (type : string) : Blob :=
  {| blob_bytes := concat (map blob_bytes parts); blob_type := type |}.

Record File :=
  { file_bytes : list Byte.byte; file_name : string; file_type : string }.

(** [new File(parts, name, { type })] *)
Definition new_File (parts : list Blob) (name type : string) : File :=
  {| file_bytes := concat (map blob_bytes parts);
     file_name := name; file_type := type |}.

(** A media stream, as far as the page uses it: the ids of its tracks. *)
Record MediaStream := { stream_tracks : list nat }.

(** An [Error] object, as far as the page uses it: its [message]. *)
Record JsError := { err_message : jsstring }.

Definition Error (m : string) : JsError := {| err_message := lit m |}.

(** The values a [text] property is followed through: a string or
    [undefined]. *)
Inductive JsVal := Undefined | Str (s : jsstring).

(** A parsed response body: [null], or any value with its [text]
    property. *)
Inductive Json := JsonNull | JsonValue (text : JsVal).

(** What the environment answers to an awaited promise; [Pending] is a
    promise that never settles. *)
Inductive Settled (A : Type) :=
| Fulfilled (a : A)
| Rejected (e : JsError)
| Pending.
Arguments Fulfilled {A} a.
Arguments Rejected {A} e.
Arguments Pending {A}.

(** What the environment answers to a synchronous call. *)
Inductive Try (A : Type) := Returns (a : A) | Throws (e : JsError).
Arguments Returns {A} a.
Arguments Throws {A} e.

Record Response := { status : N; json : Settled Json }.

(** [response.ok]: the status is in the range 200-299. *)
Definition ok (r : Response) : bool := (200 <=? status r) && (status r <=? 299).

Inductive FormValue := FormFile (f : File) | FormString (s : jsstring).

Inductive Body :=
| FormData (fields : list (string * FormValue))
| JsonBody (workflow_id : jsstring) (transcribed_text : JsVal)
           (user_email : jsstring).

Record Request :=
  { url : string; method : string;
    headers : list (string * jsstring); body : Body }.

Definition WHISPER_URL : string := "https://api.openai.com/v1/audio/transcriptions".
Definition LAMATIC_URL : string := "https://api.lamatic.ai/v1/workflows/run".

(** Calls that leave the page, in the order in which they are made. *)
Inductive Effect :=
| GetUserMedia
| GetDisplayMedia
| NewAudioContext
| RecorderStart (r : nat)
| RecorderStop (r : nat)
| TrackStop (t : nat)
| ContextClose (c : nat)
| Fetch (rq : Request)
| ConsoleError (what : string) (e : JsError).

(** ** The component: state, refs and the browser around it *)

(** The eight [useState] cells and the two [useRef] cells. *)
Record Page := mkPage {
  isRecording : bool;
  audioBlob : option Blob;
  apiKey : jsstring;
  email : jsstring;
  transcription : JsVal;
  isProcessing : bool;
  message : jsstring;
  hasAudio : bool;
  mediaRecorderRef : option nat;
  audioChunksRef : list Blob
}.

Definition init_page : Page :=
  mkPage false None [] [] (Str []) false [] false None [].

(** A [MediaRecorder]: [Stopping] is the time between the call of
    [stop()] and the delivery of its [stop] event.  The streams and the
    context are what its [onstop] callback closes over. *)
Inductive RecorderState := Recording | Stopping | Inactive.

Record Recorder := mkRecorder {
  rec_state : RecorderState;
  rec_mic : MediaStream;
  rec_tab : MediaStream;
  rec_ctx : nat
}.

Record World := mkWorld {
  page : Page;
  recorders : list Recorder;      (* the recorders created, by id *)
  live_tracks : gset nat;         (* tracks obtained and not stopped *)
  open_contexts : gset nat;       (* audio contexts created and not closed *)
  log : list Effect
}.

Definition init_world : World := mkWorld init_page [] ∅ ∅ [].

(** ** Handlers as computations: state, exceptions, suspension *)

Inductive Completion (A : Type) :=
| Normal (a : A)
| Throw (e : JsError)
| Suspended.            (* waiting on a promise that never settles *)
Arguments Normal {A} a.
Arguments Throw {A} e.
Arguments Suspended {A}.

Definition M (A : Type) : Type := World -> Completion A * World.

Definition ret {A} (a : A) : M A := fun w => (Normal a, w).

Definition bind {A B} (m : M A) (k : A -> M B) : M B :=
  fun w => match m w with
           | (Normal a, w') => k a w'
           | (Throw e, w') => (Throw e, w')
           | (Suspended, w') => (Suspended, w')
           end.

Declare Scope js_scope.
Delimit Scope js_scope with js.
Notation "x <- m ;; k" := (bind m (fun x => k))
  (at level 100, m at next level, right associativity) : js_scope.
Notation "m ;; k" := (bind m (fun _ => k))
  (at level 100, right associativity) : js_scope.
Open Scope js_scope.

Definition throw {A} (e : JsError) : M A := fun w => (Throw e, w).

(** [try { m } catch (error) { h error }] *)
Definition try_catch {A} (m : M A) (h : JsError -> M A) : M A :=
  fun w => match m w with
           | (Throw e, w') => h e w'
           | r => r
           end.

(** [try { m } finally { f }]: [f] runs when [m] completes, normally or
    not, and never while [m] is still waiting. *)
Definition try_finally {A} (m : M A) (f : M unit) : M A :=
  fun w => match m w with
           | (Suspended, w') => (Suspended, w')
           | (c, w') => match f w' with
                        | (Normal _, w'') => (c, w'')
                        | (Throw e, w'') => (Throw e, w'')
                        | (Suspended, w'') => (Suspended, w'')
                        end
           end.

(** [await p] *)
Definition await {A} (p : Settled A) : M A :=
  fun w => match p with
           | Fulfilled a => (Normal a, w)
           | Rejected e => (Throw e, w)
           | Pending => (Suspended, w)
           end.

Definition call {A} (t : Try A) : M A :=
  fun w => match t with
           | Returns a => (Normal a, w)
           | Throws e => (Throw e, w)
           end.

Definition get_page : M Page := fun w => (Normal (page w), w).

Definition modify_page (f : Page -> Page) : M unit :=
  fun w => (Normal tt,
            mkWorld (f (page w)) (recorders w) (live_tracks w)
                    (open_contexts w) (log w)).

Definition effect (e : Effect) : M unit :=
  fun w => (Normal tt,
            mkWorld (page w) (recorders w) (live_tracks w)
                    (open_contexts w) (log w ++ [e])).

Fixpoint for_each {A} (l : list A) (f : A -> M unit) : M unit :=
  match l with
  | [] => ret tt
  | x :: l' => f x ;; for_each l' f
  end.

(** *** The state setters *)

Definition setIsRecording (v : bool) : M unit :=
  modify_page (fun p =>
    mkPage v (audioBlob p) (apiKey p) (email p) (transcription p)
           (isProcessing p) (message p) (hasAudio p)
           (mediaRecorderRef p) (audioChunksRef p)).

Definition setAudioBlob (v : option Blob) : M unit :=
  modify_page (fun p =>
    mkPage (isRecording p) v (apiKey p) (email p) (transcription p)
           (isProcessing p) (message p) (hasAudio p)
           (mediaRecorderRef p) (audioChunksRef p)).

Definition setApiKey (v : jsstring) : M unit :=
  modify_page (fun p =>
    mkPage (isRecording p) (audioBlob p) v (email p) (transcription p)
           (isProcessing p) (message p) (hasAudio p)
           (mediaRecorderRef p) (audioChunksRef p)).

Definition setEmail (v : jsstring) : M unit :=
  modify_page (fun p =>
    mkPage (isRecording p) (audioBlob p) (apiKey p) v (transcription p)
           (isProcessing p) (message p) (hasAudio p)
           (mediaRecorderRef p) (audioChunksRef p)).

Definition setTranscription (v : JsVal) : M unit :=
  modify_page (fun p =>
    mkPage (isRecording p) (audioBlob p) (apiKey p) (email p) v
           (isProcessing p) (message p) (hasAudio p)
           (mediaRecorderRef p) (audioChunksRef p)).

Definition setIsProcessing (v : bool) : M unit :=
  modify_page (fun p =>
    mkPage (isRecording p) (audioBlob p) (apiKey p) (email p)
           (transcription p) v (message p) (hasAudio p)
           (mediaRecorderRef p) (audioChunksRef p)).

Definition setMessage (v : jsstring) : M unit :=
  modify_page (fun p =>
    mkPage (isRecording p) (audioBlob p) (apiKey p) (email p)
           (transcription p) (isProcessing p) v (hasAudio p)
           (mediaRecorderRef p) (audioChunksRef p)).

Definition setHasAudio (v : bool) : M unit :=
  modify_page (fun p =>
    mkPage (isRecording p) (audioBlob p) (apiKey p) (email p)
           (transcription p) (isProcessing p) (message p) v
           (mediaRecorderRef p) (audioChunksRef p)).

Definition set_mediaRecorderRef (v : option nat) : M unit :=
  modify_page (fun p =>
    mkPage (isRecording p) (audioBlob p) (apiKey p) (email p)
           (transcription p) (isProcessing p) (message p) (hasAudio p)
           v (audioChunksRef p)).

Definition set_audioChunksRef (v : list Blob) : M unit :=
  modify_page (fun p =>
    mkPage (isRecording p) (audioBlob p) (apiKey p) (email p)
           (transcription p) (isProcessing p) (message p) (hasAudio p)
           (mediaRecorderRef p) v).

(** *** The browser calls *)

(** A stream request: the call is made, and when it is granted the
    tracks of the stream are live. *)
Definition request_stream (call_made : Effect) (answer : Settled MediaStream)
    : M MediaStream :=
  effect call_made ;;
  stream <- await answer ;;
  (fun w => (Normal stream,
             mkWorld (page w) (recorders w)
                     (list_to_set (stream_tracks stream) ∪ live_tracks w)
                     (open_contexts w) (log w))).

(** [new AudioContext()] *)
Definition new_AudioContext (answer : Try nat) : M nat :=
  effect NewAudioContext ;;
  ctx <- call answer ;;
  (fun w => (Normal ctx,
             mkWorld (page w) (recorders w) (live_tracks w)
                     ({[ctx]} ∪ open_contexts w) (log w))).

(** [new MediaRecorder(destination.stream, ...)]: a recorder that is
    not recording yet; its id is its position among the recorders. *)
Definition new_MediaRecorder (answer : Try unit)
    (micStream tabStream : MediaStream) (audioContext : nat) : M nat :=
  call answer ;;
  (fun w => (Normal (length (recorders w)),
             mkWorld (page w)
                     (recorders w ++
                      [mkRecorder Inactive micStream tabStream audioContext])
                     (live_tracks w) (open_contexts w) (log w))).

Definition set_rec_state (s : RecorderState) (rc : Recorder) : Recorder :=
  mkRecorder s (rec_mic rc) (rec_tab rc) (rec_ctx rc).

Definition update_recorder (r : nat) (s : RecorderState) : M unit :=
  fun w => (Normal tt,
            mkWorld (page w) (alter (set_rec_state s) r (recorders w))
                    (live_tracks w) (open_contexts w) (log w)).

(** [mediaRecorder.start()] *)
Definition recorder_start (answer : Try unit) (r : nat) : M unit :=
  call answer ;;
  effect (RecorderStart r) ;;
  update_recorder r Recording.

(** [mediaRecorder.stop()]: on a recorder that is recording, the [stop]
    event is now due; on any other recorder the call changes nothing. *)
Definition recorder_stop (r : nat) : M unit :=
  fun w => match recorders w !! r with
           | Some rc =>
               match rec_state rc with
               | Recording =>
                   (effect (RecorderStop r) ;; update_recorder r Stopping) w
               | _ => (Normal tt, w)
               end
           | None => (Normal tt, w)
           end.

(** [track.stop()]: stopping a track that is not live changes nothing
    but the log. *)
Definition track_stop (t : nat) : M unit :=
  effect (TrackStop t) ;;
  (fun w => (Normal tt,
             mkWorld (page w) (recorders w) (live_tracks w ∖ {[t]})
                     (open_contexts w) (log w))).

(** [audioContext.close()] (its promise is not awaited) *)
Definition context_close (c : nat) : M unit :=
  effect (ContextClose c) ;;
  (fun w => (Normal tt,
             mkWorld (page w) (recorders w) (live_tracks w)
                     (open_contexts w ∖ {[c]}) (log w))).

(** [fetch(url, init)] *)
Definition fetch (rq : Request) (answer : Settled Response) : M Response :=
  effect (Fetch rq) ;;
  await answer.

Definition console_error (what : string) (e : JsError) : M unit :=
  effect (ConsoleError what e).

(** [result.text]: reading a property of [null] throws a TypeError (the
    message is V8's). *)
Definition get_text (result : Json) : M JsVal :=
  match result with
  | JsonNull => throw (Error "Cannot read properties of null (reading 'text')")
  | JsonValue text => ret text
  end.

(** ** The handlers of the page *)

(** What the browser answers during one run of [startRecording]. *)
Record StartEnv := {
  env_mic : Settled MediaStream;   (* getUserMedia *)
  env_tab : Settled MediaStream;   (* getDisplayMedia *)
  env_ctx : Try nat;               (* new AudioContext() *)
  env_graph : Try unit;            (* the sources, the destination, connect *)
  env_recorder : Try unit;         (* new MediaRecorder(...) *)
  env_start : Try unit             (* mediaRecorder.start() *)
}.

(** [mediaRecorder.ondataavailable] *)
Definition ondataavailable (data : Blob) : M unit :=
  if decide (0 < blob_size data)%nat then
    p <- get_page ;;
    set_audioChunksRef (audioChunksRef p ++ [data])
  else ret tt.

(** [mediaRecorder.onstop], with the streams and the context of the
    [startRecording] run that installed it. *)
Definition onstop (micStream tabStream : MediaStream) (audioContext : nat)
    : M unit :=
  p <- get_page ;;
  let audioBlob := new_Blob (audioChunksRef p) "audio/webm" in
  setAudioBlob (Some audioBlob) ;;
  setHasAudio true ;;
  for_each (stream_tracks micStream) track_stop ;;
  for_each (stream_tracks tabStream) track_stop ;;
  context_close audioContext.

Definition startRecording (env : StartEnv) : M unit :=
  try_catch
    (micStream <- request_stream GetUserMedia (env_mic env) ;;
     tabStream <- request_stream GetDisplayMedia (env_tab env) ;;
     audioContext <- new_AudioContext (env_ctx env) ;;
     call (env_graph env) ;;
     mediaRecorder <-
       new_MediaRecorder (env_recorder env) micStream tabStream audioContext ;;
     set_audioChunksRef [] ;;
     set_mediaRecorderRef (Some mediaRecorder) ;;
     recorder_start (env_start env) mediaRecorder ;;
     setIsRecording true ;;
     setMessage (lit "Recording started... Click DONE when finished."))
    (fun error =>
       console_error "Error starting recording:" error ;;
       setMessage
         (lit "Error: Could not start recording. Please check permissions.")).

Definition stopRecording : M unit :=
  p <- get_page ;;
  match mediaRecorderRef p with
  | Some mediaRecorder =>
      if isRecording p then
        recorder_stop mediaRecorder ;;
        setIsRecording false ;;
        setMessage
          (lit "Recording stopped. Click " ++
           DQUOTE :: lit "Process Audio" ++ DQUOTE :: lit " to transcribe.")
      else ret tt
  | None => ret tt
  end.

(** What the two services answer during one run of [processAudio]. *)
Record NetEnv := {
  net_whisper : Settled Response;
  net_lamatic : Settled Response
}.

Definition whisper_request (key : jsstring) (audioFile : File) : Request :=
  {| url := WHISPER_URL; method := "POST";
     headers := [("Authorization"%string, lit "Bearer " ++ key)];
     body := FormData [("file"%string, FormFile audioFile);
                       ("model"%string, FormString (lit "whisper-1"))] |}.

Definition lamatic_request (text : JsVal) (user_email : jsstring) : Request :=
  {| url := LAMATIC_URL; method := "POST";
     headers := [("Content-Type"%string, lit "application/json")];
     body := JsonBody (lit "your-workflow-id") text user_email |}.

Definition process_rejected : M unit :=
  setMessage (lit "Please ensure you have recorded audio, entered a valid API key, and email.").

Definition processAudio (net : NetEnv) : M unit :=
  p <- get_page ;;
  match audioBlob p with
  | None => process_rejected
  | Some blob =>
    if negb (truthy (apiKey p)) || negb (validateEmail (email p))
    then process_rejected
    else
      setIsProcessing true ;;
      setMessage (lit "Transcribing audio...") ;;
      try_finally
        (try_catch
           (let audioFile := new_File [blob] "recording.webm" "audio/webm" in
            whisperResponse <-
              fetch (whisper_request (apiKey p) audioFile) (net_whisper net) ;;
            (if negb (ok whisperResponse)
             then throw (Error "Transcription failed") else ret tt) ;;
            transcriptionResult <- await (json whisperResponse) ;;
            transcribedText <- get_text transcriptionResult ;;
            setTranscription transcribedText ;;
            setMessage (lit "Transcription complete. Sending to Lamatic AI...") ;;
            lamaticResponse <-
              fetch (lamatic_request transcribedText (email p))
                    (net_lamatic net) ;;
            (if negb (ok lamaticResponse)
             then throw (Error "Failed to send to Lamatic AI") else ret tt) ;;
            setMessage (lit "Success! Audio processed and sent to Lamatic AI. Check your email for results."))
           (fun error =>
              console_error "Error processing audio:" error ;;
              setMessage (lit "Error: " ++ err_message error)))
        (setIsProcessing false)
  end.

(** ** The rendered controls *)

(** A button that is rendered, with its [disabled] attribute. *)
Record Button := { disabled : bool }.

(** [{!isRecording && !hasAudio && (<button onClick={startRecording}
    disabled={!apiKey || !validateEmail(email)}>)}] *)
Definition start_button (p : Page) : option Button :=
  if negb (isRecording p) && negb (hasAudio p)
  then Some {| disabled := negb (truthy (apiKey p))
                           || negb (validateEmail (email p)) |}
  else None.

(** [{isRecording && (<button onClick={stopRecording}>)}] *)
Definition done_button (p : Page) : option Button :=
  if isRecording p then Some {| disabled := false |} else None.

(** [{hasAudio && !isRecording && (<button onClick={processAudio}
    disabled={isProcessing}>)}] *)
Definition process_button (p : Page) : option Button :=
  if hasAudio p && negb (isRecording p)
  then Some {| disabled := isProcessing p |}
  else None.

(** A click reaches the handler of a button that is rendered and not
    disabled. *)
Definition clickable (b : option Button) : bool :=
  match b with
  | Some b => negb (disabled b)
  | None => false
  end.

(** ** The page as a transition system *)

(** What can happen to the page: the user types or clicks, a recorder
    delivers data or its [stop] event.  Each handler runs to its end (or
    to the promise it waits on forever) before the next event. *)
Inductive Event :=
| TypeApiKey (s : jsstring)
| TypeEmail (s : jsstring)
| ClickStart (env : StartEnv)
| ClickDone
| ClickProcess (net : NetEnv)
| DataAvailable (r : nat) (data : Blob)
| Stopped (r : nat).

Definition exec (m : M unit) (w : World) : World := snd (m w).

Definition click_start (env : StartEnv) (w : World) : World :=
  if clickable (start_button (page w)) then exec (startRecording env) w
  else w.

Definition click_done (w : World) : World :=
  if clickable (done_button (page w)) then exec stopRecording w else w.

Definition click_process (net : NetEnv) (w : World) : World :=
  if clickable (process_button (page w)) then exec (processAudio net) w
  else w.

(** A recorder delivers data while it records and until its [stop]
    event. *)
Definition deliver_data (r : nat) (data : Blob) (w : World) : World :=
  match recorders w !! r with
  | Some rc =>
      match rec_state rc with
      | Inactive => w
      | _ => exec (ondataavailable data) w
      end
  | None => w
  end.

(** The [stop] event of a recorder on which [stop()] was called. *)
Definition deliver_stop (r : nat) (w : World) : World :=
  match recorders w !! r with
  | Some rc =>
      match rec_state rc with
      | Stopping =>
          exec (update_recorder r Inactive ;;
                onstop (rec_mic rc) (rec_tab rc) (rec_ctx rc)) w
      | _ => w
      end
  | None => w
  end.

Definition step (w : World) (e : Event) : World :=
  match e with
  | TypeApiKey s => exec (setApiKey s) w
  | TypeEmail s => exec (setEmail s) w
  | ClickStart env => click_start env w
  | ClickDone => click_done w
  | ClickProcess net => click_process net w
  | DataAvailable r data => deliver_data r data w
  | Stopped r => deliver_stop r w
  end.

Definition run (w : World) (es : list Event) : World := fold_left step es w.

(** *** Observations used in the statements *)

Definition is_stream_request (e : Effect) : bool :=
  match e with GetUserMedia | GetDisplayMedia => true | _ => false end.

Definition is_fetch_to (u : string) (e : Effect) : bool :=
  match e with
  | Fetch rq => bool_decide (url rq = u)
  | _ => false
  end.

Definition count_effects (f : Effect -> bool) (l : list Effect) : nat :=
  length (filter (fun e => f e = true) l).

(** The effects a handler added to the log. *)
Definition new_effects (w w' : World) : list Effect :=
  drop (length (log w)) (log w').

Definition settled {A} (c : Completion A) : bool :=
  match c with Suspended => false | _ => true end.

Definition total_size (chunks : list Blob) : nat :=
  foldr (fun b n => (blob_size b + n)%nat) 0%nat chunks.

(** The check at the head of [processAudio] lets the run through. *)
Definition precondition_ok (p : Page) : bool :=
  match audioBlob p with Some _ => true | None => false end
  && truthy (apiKey p) && validateEmail (email p).

(** *** Relations between the world before and after a run *)

(** [m] respects [R]: whatever the environment answers and however [m]
    ends, the world after is related to the world before. *)
Definition respects (R : relation World) {A} (m : M A) : Prop :=
  forall w, R w (snd (m w)).

Definition same {X} (f : World -> X) : relation World :=
  fun w w' => f w' = f w.

Definition the_audioBlob (w : World) := audioBlob (page w).
Definition the_hasAudio (w : World) := hasAudio (page w).

Arguments ok : simpl never.
Arguments validateEmail : simpl never.
Arguments truthy : simpl never.
Arguments lit : simpl never.
Arguments Error : simpl never.

(** *** A capture in progress *)

(** The browser grants both streams and every later call works. *)
Definition works (env : StartEnv) (mic tab : MediaStream) (ctx : nat) : Prop :=
  env_mic env = Fulfilled mic /\ env_tab env = Fulfilled tab /\
  env_ctx env = Returns ctx /\ env_graph env = Returns tt /\
  env_recorder env = Returns tt /\ env_start env = Returns tt.

(** The chunks [ondataavailable] keeps. *)
Definition nonempty (b : Blob) : Prop := (0 < blob_size b)%nat.

(** The page follows recorder [r], which is in state [s], and has
    buffered [cs]. *)
Definition capture (w : World) (r : nat) (s : RecorderState)
    (recording : bool) (cs : list Blob) : Prop :=
  (exists rc, recorders w !! r = Some rc /\ rec_state rc = s) /\
  mediaRecorderRef (page w) = Some r /\
  isRecording (page w) = recording /\
  audioChunksRef (page w) = cs.

(** *** Sample worlds and answers *)

Definition sample_blob : Blob :=
  {| blob_bytes := [Byte.x1a; Byte.x45; Byte.xdf]; blob_type := "audio/webm" |}.

(** A page holding a recording, the key [sk-test] and the address
    [a@b.co]. *)
Definition ready_world : World :=
  mkWorld
    (mkPage false (Some sample_blob) (lit "sk-test") (lit "a@b.co") (Str [])
            false [] true None [])
    [] ∅ ∅ [].

Definition resp_500 : Response :=
  {| status := 500; json := Rejected (Error "Unexpected token") |}.

Definition resp_hello : Response :=
  {| status := 200; json := Fulfilled (JsonValue (Str (lit "hello world"))) |}.

Definition resp_200 : Response :=
  {| status := 200; json := Fulfilled JsonNull |}.

Definition net_500 : NetEnv :=
  {| net_whisper := Fulfilled resp_500; net_lamatic := Fulfilled resp_200 |}.

Definition net_ok : NetEnv :=
  {| net_whisper := Fulfilled resp_hello; net_lamatic := Fulfilled resp_200 |}.

(** Both streams granted, with one track each; everything else works. *)
Definition env_granted : StartEnv :=
  {| env_mic := Fulfilled {| stream_tracks := [1%nat] |};
     env_tab := Fulfilled {| stream_tracks := [2%nat] |};
     env_ctx := Returns 0%nat;
     env_graph := Returns tt;
     env_recorder := Returns tt;
     env_start := Returns tt |}.

(** The microphone granted, the tab picker dismissed. *)
Definition env_tab_denied : StartEnv :=
  {| env_mic := Fulfilled {| stream_tracks := [1%nat] |};
     env_tab := Rejected (Error "Permission denied");
     env_ctx := Returns 0%nat;
     env_graph := Returns tt;
     env_recorder := Returns tt;
     env_start := Returns tt |}.

(** The page with its fields filled in and nothing recorded yet. *)
Definition filled_world : World :=
  exec (setApiKey (lit "sk-test") ;; setEmail (lit "a@b.co")) init_world.


(** *** A capture that nothing else disturbs *)





(** ** startRecording across its awaits *)

(** An [async] function runs up to its first [await] when it is called
    and goes on when the awaited promise settles; clicks and recorder
    events can be handled in between.  [startRecording] awaits twice. *)

(** A stream request is granted: the tracks of the stream are live. *)
Definition granted (stream : MediaStream) : M MediaStream :=
  fun w => (Normal stream,
            mkWorld (page w) (recorders w)
                    (list_to_set (stream_tracks stream) ∪ live_tracks w)
                    (open_contexts w) (log w)).

(** The body of the [try] block once both streams are there. *)
Definition start_with_streams (env : StartEnv)
    (micStream tabStream : MediaStream) : M unit :=
  audioContext <- new_AudioContext (env_ctx env) ;;
  call (env_graph env) ;;
  mediaRecorder <-
    new_MediaRecorder (env_recorder env) micStream tabStream audioContext ;;
  set_audioChunksRef [] ;;
  set_mediaRecorderRef (Some mediaRecorder) ;;
  recorder_start (env_start env) mediaRecorder ;;
  setIsRecording true ;;
  setMessage (lit "Recording started... Click DONE when finished.").

(** The [catch] block. *)
Definition start_failed (error : JsError) : M unit :=
  console_error "Error starting recording:" error ;;
  setMessage
    (lit "Error: Could not start recording. Please check permissions.").

(** Where a run of [startRecording] waits. *)
Inductive StartStage :=
| AwaitingMic
| AwaitingTab (micStream : MediaStream).

(** The page together with the runs of [startRecording] that wait on a
    promise, oldest first. *)
Record Async := mkAsync { world : World; starts : list StartStage }.

(** An event of the page handled at once as before, a click on Start
    that runs up to the first [await], or the settling of the promise
    that the [i]-th waiting run awaits, with the answer ([env] gives the
    answers to the calls that follow the second [await]). *)
Inductive AsyncEvent :=
| Atomic (e : Event)
| StartClicked
| MicSettled (i : nat) (answer : JsError + MediaStream)
| TabSettled (i : nat) (answer : JsError + MediaStream) (env : StartEnv).

Definition astep (a : Async) (ev : AsyncEvent) : Async :=
  match ev with
  | Atomic e => mkAsync (step (world a) e) (starts a)
  | StartClicked =>
      if clickable (start_button (page (world a)))
      then mkAsync (exec (effect GetUserMedia) (world a))
                   (starts a ++ [AwaitingMic])
      else a
  | MicSettled i answer =>
      match starts a !! i with
      | Some AwaitingMic =>
          match answer with
          | inr micStream =>
              mkAsync (exec (granted micStream ;; effect GetDisplayMedia)
                            (world a))
                      (<[i := AwaitingTab micStream]> (starts a))
          | inl error =>
              mkAsync (exec (start_failed error) (world a))
                      (delete i (starts a))
          end
      | _ => a
      end
  | TabSettled i answer env =>
      match starts a !! i with
      | Some (AwaitingTab micStream) =>
          match answer with
          | inr tabStream =>
              mkAsync
                (exec (granted tabStream ;;
                       try_catch (start_with_streams env micStream tabStream)
                                 start_failed)
                      (world a))
                (delete i (starts a))
          | inl error =>
              mkAsync (exec (start_failed error) (world a))
                      (delete i (starts a))
          end
      | _ => a
      end
  end.

Definition arun (a : Async) (evs : list AsyncEvent) : Async :=
  fold_left astep evs a.


(** *** States the page can be in *)

Definition reachable (w : World) : Prop := exists es, w = run init_world es.

(** The tracks a recorder's [onstop] will stop. *)
Definition recorder_tracks (rc : Recorder) : list nat :=
  stream_tracks (rec_mic rc) ++ stream_tracks (rec_tab rc).

(** What a capture started in [w0] with recorder [r] has acquired and
    left alone. *)
Definition session (w0 w : World) (r : nat) (s : RecorderState)
    (mic tab : MediaStream) (ctx : nat) : Prop :=
  recorders w !! r = Some (mkRecorder s mic tab ctx) /\
  live_tracks w =
    list_to_set (stream_tracks tab) ∪
    (list_to_set (stream_tracks mic) ∪ live_tracks w0) /\
  open_contexts w = {[ctx]} ∪ open_contexts w0 /\
  apiKey (page w) = apiKey (page w0) /\
  email (page w) = email (page w0) /\
  isProcessing (page w) = isProcessing (page w0) /\
  hasAudio (page w) = hasAudio (page w0).

Definition STARTED : jsstring :=
  lit "Recording started... Click DONE when finished.".
Definition START_FAILED : jsstring :=
  lit "Error: Could not start recording. Please check permissions.".
Definition SUCCESS : jsstring :=
  lit "Success! Audio processed and sent to Lamatic AI. Check your email for results.".

(** The text the transcription service answered: the [text] property of
    its response, when the response was ok and its body was parsed to
    something other than [null]. *)
Definition answered_text (net : NetEnv) : option JsVal :=
  match net_whisper net with
  | Fulfilled r =>
      if ok r then
        match json r with
        | Fulfilled (JsonValue text) => Some text
        | _ => None
        end
      else None
  | _ => None
  end.

(** The relay answered with a success. *)
Definition relay_ok (net : NetEnv) : bool :=
  match net_lamatic net with
  | Fulfilled r => ok r
  | _ => false
  end.

Definition REJECTED : jsstring :=
  lit "Please ensure you have recorded audio, entered a valid API key, and email.".

(** * Properties *)

(** ** The matcher and the language of a regex *)

Section Matcher.

Lemma plus_not_in_true p s k :
  plus_not_in p s k = true <->
  exists s1 s2, s = s1 ++ s2 /\ lang (PlusNotIn p) s1 /\ k s2 = true.
Proof.
  induction s as [|c s IH]; simpl.
  - split; [discriminate|].
    intros (s1 & s2 & E & [Hne _] & _).
    destruct s1; [congruence | discriminate].
  - rewrite andb_true_iff, orb_true_iff, negb_true_iff, IH. simpl. split.
    + intros [Hc [(s1 & s2 & -> & [_ Hall] & Hk) | Hk]].
      * exists (c :: s1), s2. repeat split; auto; discriminate.
      * exists [c], s. repeat split; auto; discriminate.
    + intros (s1 & s2 & E & [Hne Hall] & Hk).
      destruct s1 as [|c1 s1]; [congruence|].
      injection E as -> ->. inversion Hall as [|? ? Hc Hall']; subst.
      split; [exact Hc|].
      destruct s1 as [|c2 s1].
      * right. exact Hk.
      * left. exists (c2 :: s1), s2. repeat split; auto; discriminate.
Qed.

Lemma matches_true r : forall s k,
  matches r s k = true <->
  exists s1 s2, s = s1 ++ s2 /\ lang r s1 /\ k s2 = true.
Proof.
  induction r as [c | p | r1 IH1 r2 IH2]; intros s k; simpl.
  - destruct s as [|c' s].
    + split; [discriminate|].
      intros (s1 & s2 & E & -> & _). discriminate.
    + rewrite andb_true_iff, N.eqb_eq. split.
      * intros [-> Hk]. exists [c], s. auto.
      * intros (s1 & s2 & E & -> & Hk). injection E as -> ->. auto.
  - apply plus_not_in_true.
  - rewrite IH1. split.
    + intros (s1 & s2 & -> & L1 & H2). apply IH2 in H2.
      destruct H2 as (s3 & s4 & -> & L2 & Hk).
      exists (s1 ++ s3), s4. rewrite <- app_assoc. eauto 10.
    + intros (s12 & s4 & -> & (s1 & s3 & -> & L1 & L2) & Hk).
      exists s1, (s3 ++ s4). rewrite <- app_assoc.
      repeat split; auto. apply IH2. eauto.
Qed.

Lemma test_anchored_true r s : test_anchored r s = true <-> lang r s.
Proof.
  unfold test_anchored. rewrite matches_true. split.
  - intros (s1 & s2 & -> & L & Hk).
    destruct s2; [|discriminate]. now rewrite app_nil_r.
  - intros L. exists s, []. now rewrite app_nil_r.
Qed.

End Matcher.

(** ** validateEmail *)

Lemma space_or_at_false c : space_or_at c = false <-> plain c.
Proof.
  unfold space_or_at, plain.
  rewrite orb_false_iff, N.eqb_neq. tauto.
Qed.

Lemma dquote_false c : dquote c = false <-> unquoted c.
Proof. unfold dquote, unquoted. apply N.eqb_neq. Qed.

Lemma Forall_plain l : Forall (fun c => space_or_at c = false) l <-> Forall plain l.
Proof. apply Forall_proper; [intros c; apply space_or_at_false | done]. Qed.

Lemma Forall_unquoted l : Forall (fun c => dquote c = false) l <-> Forall unquoted l.
Proof. apply Forall_proper; [intros c; apply dquote_false | done]. Qed.

Lemma email_lang s : lang email_regex s <-> spec_email_pattern s.
Proof.
  unfold spec_email_pattern; simpl. split.
  - intros (l & s1 & -> & [Hl Pl] & a & s2 & -> & -> & d & s3 & -> &
            [Hd Pd] & o & t & -> & -> & [Ht Pt]).
    exists l, d, t. rewrite Forall_plain in Pl, Pt.
    rewrite Forall_unquoted in Pd. simpl. done.
  - intros (l & d & t & -> & Hl & Pl & Hd & Pd & Ht & Pt).
    rewrite <- Forall_plain in Pl, Pt. rewrite <- Forall_unquoted in Pd.
    exists l, (AT :: d ++ DOT :: t). do 2 (split; [done|]).
    exists [AT], (d ++ DOT :: t). do 2 (split; [done|]).
    exists d, (DOT :: t). do 2 (split; [done|]).
    exists [DOT], t. done.
Qed.

Lemma validateEmail_iff s : validateEmail s = true <-> spec_email_pattern s.
Proof. unfold validateEmail. now rewrite test_anchored_true, email_lang. Qed.

Lemma plain_no_at l : Forall plain l -> AT ∉ l.
Proof.
  intros H Hin. rewrite Forall_forall in H.
  destruct (H AT Hin) as [_ Hne]. congruence.
Qed.

(** In a valid address every "@" is followed, somewhere, by a ".". *)
Lemma dot_after_at pre post s :
  spec_email_pattern s -> s = pre ++ AT :: post -> DOT ∈ post.
Proof.
  intros (l & d & t & -> & _ & Pl & _ & _ & _ & Pt) E.
  apply plain_no_at in Pl, Pt.
  assert (Hdot : DOT ∈ d ++ DOT :: t) by (apply elem_of_app; right; left).
  apply app_eq_app in E. destruct E as [x [[El E] | [Ep E]]].
  - destruct x as [|a x]; simpl in E.
    + injection E as ->. exact Hdot.
    + injection E as <- _. exfalso. apply Pl. rewrite El.
      apply elem_of_app; right; left.
  - destruct x as [|a x]; simpl in E.
    + injection E as <-. exact Hdot.
    + injection E as _ E.
      apply app_eq_app in E. destruct E as [y [[Ed E] | [Ex E]]].
      * destruct y as [|b y]; simpl in E.
        -- discriminate E.
        -- injection E as _ ->. apply elem_of_app; right; left.
      * destruct y as [|b y]; simpl in E.
        -- discriminate E.
        -- injection E as _ E. exfalso. apply Pt. rewrite E.
           apply elem_of_app; right; left.
Qed.

Example validateEmail_ex1 : validateEmail (lit "a@b.co") = true.
Proof. reflexivity. Qed.
Example validateEmail_ex2 : validateEmail (lit "a@b@c.d") = true.
Proof. reflexivity. Qed.
Example validateEmail_ex3 : validateEmail (lit "a b@c.d") = false.
Proof. reflexivity. Qed.
Example validateEmail_ex4 : validateEmail (lit "") = false.
Proof. reflexivity. Qed.
Example validateEmail_ex5 : validateEmail (lit "a@b.c@d") = false.
Proof. reflexivity. Qed.

(** C1. [validateEmail s] is true exactly when [s] is one or more
    characters that are neither whitespace nor "@", then "@", then one or
    more characters other than the double quote, then ".", then one or
    more characters that are neither whitespace nor "@".  In particular
    every string built that way is accepted, a string without "@" is
    rejected, and a string in which some "@" has no "." after it is
    rejected.  The function takes a string and returns a boolean: it reads
    and writes nothing else. *)
Theorem validateEmail_correct :
  (forall s, validateEmail s = true <-> spec_email_pattern s) /\
  (forall l d t,
      l <> [] -> Forall plain l ->
      d <> [] -> Forall unquoted d ->
      t <> [] -> Forall plain t ->
      validateEmail (l ++ AT :: d ++ DOT :: t) = true) /\
  (forall s, AT ∉ s -> validateEmail s = false) /\
  (forall pre post, DOT ∉ post -> validateEmail (pre ++ AT :: post) = false).
Proof.
  split; [exact validateEmail_iff|]. split; [|split].
  - intros l d t Hl Pl Hd Pd Ht Pt. apply validateEmail_iff.
    exists l, d, t. done.
  - intros s Hno. apply not_true_is_false. intros V.
    apply validateEmail_iff in V.
    destruct V as (l & d & t & -> & _). set_solver.
  - intros pre post Hno. apply not_true_is_false. intros V.
    apply validateEmail_iff in V.
    apply Hno. eapply dot_after_at; [exact V | reflexivity].
Qed.

Lemma validateEmail_correct_witness :
  validateEmail (lit "a@b.co") = true /\
  validateEmail (lit "ab.co") = false /\
  validateEmail (lit "a@bco") = false.
Proof.
  destruct validateEmail_correct as (_ & Hyes & Hno_at & Hno_dot).
  split; [|split].
  - apply (Hyes (lit "a") (lit "b") (lit "co")); try (intros E; discriminate E).
    + repeat constructor; intros E; discriminate E.
    + repeat constructor; intros E; discriminate E.
    + repeat constructor; intros E; discriminate E.
  - apply (Hno_at (lit "ab.co")).
    refine (bool_decide_unpack _ _). vm_compute. exact I.
  - apply (Hno_dot (lit "a") (lit "bco")).
    refine (bool_decide_unpack _ _). vm_compute. exact I.
Defined.

(** ** Handlers: what a run leaves alone *)

Section Respects.

Context (R : relation World) `{!PreOrder R}.

Lemma respects_ret {A} (a : A) : respects R (ret a).
Proof. intros w. simpl. reflexivity. Qed.

Lemma respects_throw {A} e : respects R (@throw A e).
Proof. intros w. simpl. reflexivity. Qed.

Lemma respects_await {A} (p : Settled A) : respects R (await p).
Proof. intros w. destruct p; simpl; reflexivity. Qed.

Lemma respects_call {A} (t : Try A) : respects R (call t).
Proof. intros w. destruct t; simpl; reflexivity. Qed.

Lemma respects_get_page : respects R get_page.
Proof. intros w. simpl. reflexivity. Qed.

Lemma respects_bind {A B} (m : M A) (k : A -> M B) :
  respects R m -> (forall a, respects R (k a)) -> respects R (bind m k).
Proof.
  intros Hm Hk w. unfold bind. specialize (Hm w).
  destruct (m w) as [[a | e |] w1]; simpl in *; try exact Hm.
  etransitivity; [exact Hm | apply Hk].
Qed.

Lemma respects_try_catch {A} (m : M A) (h : JsError -> M A) :
  respects R m -> (forall e, respects R (h e)) -> respects R (try_catch m h).
Proof.
  intros Hm Hh w. unfold try_catch. specialize (Hm w).
  destruct (m w) as [[a | e |] w1]; simpl in *; try exact Hm.
  etransitivity; [exact Hm | apply Hh].
Qed.

Lemma respects_try_finally {A} (m : M A) (f : M unit) :
  respects R m -> respects R f -> respects R (try_finally m f).
Proof.
  intros Hm Hf w. unfold try_finally. specialize (Hm w).
  destruct (m w) as [[a | e |] w1]; simpl in *; try exact Hm.
  - specialize (Hf w1). destruct (f w1) as [[[] | e |] w2]; simpl in *;
      (etransitivity; [exact Hm | exact Hf]).
  - specialize (Hf w1). destruct (f w1) as [[[] | e' |] w2]; simpl in *;
      (etransitivity; [exact Hm | exact Hf]).
Qed.

Lemma respects_for_each {A} (l : list A) (f : A -> M unit) :
  (forall x, respects R (f x)) -> respects R (for_each l f).
Proof.
  intros Hf. induction l as [|x l IH]; simpl.
  - apply respects_ret.
  - apply respects_bind; auto.
Qed.

End Respects.

#[local] Instance same_preorder {X} (f : World -> X) : PreOrder (same f).
Proof.
  split.
  - intros w. reflexivity.
  - intros w1 w2 w3 H12 H23. unfold same in *. congruence.
Qed.

Create HintDb handlers.
#[local] Hint Unfold startRecording stopRecording processAudio onstop
  ondataavailable process_rejected fetch console_error get_text
  request_stream new_AudioContext new_MediaRecorder recorder_start
  track_stop context_close : handlers.

(** Decompose a handler along its control structure; what remains are
    the primitive updates, checked by computation. *)
Ltac respects_prim :=
  let w := fresh "w" in
  intros w; hnf; unfold recorder_stop; simpl;
  repeat case_match; simpl; solve [reflexivity | auto].

Ltac respects_tac :=
  autounfold with handlers;
  repeat first
    [ apply respects_ret | apply respects_throw | apply respects_await
    | apply respects_call | apply respects_get_page
    | apply respects_bind | apply respects_try_catch
    | apply respects_try_finally | apply respects_for_each
    | match goal with
      | |- forall _, _ => intro
      | |- PreOrder _ => typeclasses eauto
      | |- respects _ (match ?x with _ => _ end) => destruct x
      end
    | respects_prim ].

Lemma processAudio_keeps_audioBlob net :
  respects (same the_audioBlob) (processAudio net).
Proof. respects_tac. Qed.


(** ** processAudio, case by case *)

Ltac unfold_run :=
  unfold exec, processAudio, startRecording, stopRecording, onstop,
    ondataavailable, process_rejected, fetch, get_text, console_error,
    request_stream, new_AudioContext, new_MediaRecorder, recorder_start,
    try_finally, try_catch, bind, get_page, await, call, throw, ret, effect,
    setIsRecording, setAudioBlob, setTranscription, setIsProcessing,
    setMessage, setHasAudio, set_mediaRecorderRef, set_audioChunksRef,
    update_recorder, modify_page.

Lemma precondition_ok_true p :
  precondition_ok p = true ->
  exists blob, audioBlob p = Some blob /\
               truthy (apiKey p) = true /\ validateEmail (email p) = true.
Proof.
  unfold precondition_ok. rewrite !andb_true_iff.
  destruct (audioBlob p) as [blob|]; [|intros [[? _] _]; discriminate].
  intros [[_ Hk] He]. eauto.
Qed.

Lemma processAudio_transcription_failed w net r blob :
  audioBlob (page w) = Some blob ->
  truthy (apiKey (page w)) = true ->
  validateEmail (email (page w)) = true ->
  net_whisper net = Fulfilled r -> ok r = false ->
  processAudio net w =
  (Normal tt,
   mkWorld
     (mkPage (isRecording (page w)) (audioBlob (page w)) (apiKey (page w))
             (email (page w)) (transcription (page w)) false
             (lit "Error: " ++ lit "Transcription failed")
             (hasAudio (page w)) (mediaRecorderRef (page w))
             (audioChunksRef (page w)))
     (recorders w) (live_tracks w) (open_contexts w)
     (log w ++
      [Fetch (whisper_request (apiKey (page w))
                (new_File [blob] "recording.webm" "audio/webm"));
       ConsoleError "Error processing audio:" (Error "Transcription failed")])).
Proof.
  intros Hb Hk He Hw Hok. unfold_run.
  rewrite Hb, Hk, He. cbn. rewrite Hw. cbn. rewrite Hok. cbn.
  rewrite <- app_assoc, ?Hb. reflexivity.
Qed.

Lemma processAudio_log w net :
  exists l, log (exec (processAudio net) w) = log w ++ l /\
    (l = [] \/
     exists blob, audioBlob (page w) = Some blob /\
       let W := Fetch (whisper_request (apiKey (page w))
                         (new_File [blob] "recording.webm" "audio/webm")) in
       (exists e, l = [W; ConsoleError "Error processing audio:" e]) \/
       l = [W] \/
       exists r t, net_whisper net = Fulfilled r /\ ok r = true /\
                   json r = Fulfilled (JsonValue t) /\
         let L := Fetch (lamatic_request t (email (page w))) in
         l = [W; L] \/
         exists e, l = [W; L; ConsoleError "Error processing audio:" e]).
Proof.
  unfold_run.
  destruct (audioBlob (page w)) as [blob|] eqn:Hb; cbn;
    [|exists []; rewrite app_nil_r; auto].
  destruct (negb (truthy (apiKey (page w))) ||
            negb (validateEmail (email (page w)))); cbn;
    [exists []; rewrite app_nil_r; auto|].
  destruct (net_whisper net) as [r | e |] eqn:Hw; cbn.
  - destruct (ok r) eqn:Hok; cbn.
    + destruct (json r) as [[|t] | e |] eqn:Hj; cbn.
      * eexists. rewrite <- app_assoc. split; [reflexivity|].
        right. exists blob. split; [done|]. left. eauto.
      * destruct (net_lamatic net) as [r2 | e |]; cbn.
        -- destruct (ok r2); cbn.
           ++ eexists. rewrite <- app_assoc. split; [reflexivity|].
              right. exists blob. split; [done|]. right. right.
              exists r, t. auto.
           ++ eexists. rewrite <- !app_assoc. split; [reflexivity|].
              right. exists blob. split; [done|]. right. right.
              exists r, t. cbn. eauto 10.
        -- eexists. rewrite <- !app_assoc. split; [reflexivity|].
           right. exists blob. split; [done|]. right. right.
           exists r, t. cbn. eauto 10.
        -- eexists. rewrite <- !app_assoc. split; [reflexivity|].
           right. exists blob. split; [done|]. right. right.
           exists r, t. cbn. eauto 10.
      * eexists. rewrite <- app_assoc. split; [reflexivity|].
        right. exists blob. split; [done|]. left. eauto.
      * eexists. split; [reflexivity|].
        right. exists blob. split; [done|]. right. left. done.
    + eexists. rewrite <- app_assoc. split; [reflexivity|].
      right. exists blob. split; [done|]. left. eauto.
  - eexists. rewrite <- app_assoc. split; [reflexivity|].
    right. exists blob. split; [done|]. left. eauto.
  - eexists. split; [reflexivity|].
    right. exists blob. split; [done|]. right. left. done.
Qed.

Lemma new_effects_app w w' l : log w' = log w ++ l -> new_effects w w' = l.
Proof. unfold new_effects. intros ->. apply drop_app_length. Qed.

Lemma ok_500 r : status r = 500 -> ok r = false.
Proof. unfold ok. intros ->. reflexivity. Qed.

Lemma processAudio_settles_cleared w net blob :
  audioBlob (page w) = Some blob ->
  truthy (apiKey (page w)) = true ->
  validateEmail (email (page w)) = true ->
  settled (fst (processAudio net w)) = true ->
  fst (processAudio net w) = Normal tt /\
  isProcessing (page (exec (processAudio net) w)) = false.
Proof.
  intros Hb Hk He. unfold_run. rewrite Hb, Hk, He. cbn.
  destruct (net_whisper net) as [r | e |]; cbn; auto; [|discriminate].
  destruct (ok r); cbn; auto.
  destruct (json r) as [[|t] | e |]; cbn; auto; [|discriminate].
  destruct (net_lamatic net) as [r2 | e |]; cbn; auto; [|discriminate].
  destruct (ok r2); cbn; auto.
Qed.

(** A request that never completes leaves the flag set. *)
Lemma processAudio_hangs_processing w net blob :
  audioBlob (page w) = Some blob ->
  truthy (apiKey (page w)) = true ->
  validateEmail (email (page w)) = true ->
  net_whisper net = Pending ->
  fst (processAudio net w) = Suspended /\
  isProcessing (page (exec (processAudio net) w)) = true.
Proof.
  intros Hb Hk He Hw. unfold_run. rewrite Hb, Hk, He. cbn.
  rewrite Hw. cbn. auto.
Qed.

(** C2. When the transcription service answers with a status that is not
    a success, the run ends with the error [Transcription failed] caught
    and reported, and no request to the workflow service was made.  In any
    run at all, a request to the workflow service is made only after the
    transcription request, as the second request, and only when the
    transcription response was a success whose body was parsed. *)
Theorem failed_transcription_never_relays w net :
  let w' := exec (processAudio net) w in
  (forall r, net_whisper net = Fulfilled r -> ok r = false ->
     count_effects (is_fetch_to LAMATIC_URL) (new_effects w w') = 0%nat /\
     (precondition_ok (page w) = true ->
      fst (processAudio net w) = Normal tt /\
      message (page w') = lit "Error: Transcription failed" /\
      exists rq, url rq = WHISPER_URL /\
        new_effects w w' =
        [Fetch rq;
         ConsoleError "Error processing audio:" (Error "Transcription failed")]))
  /\
  (forall pre rq post,
     new_effects w w' = pre ++ Fetch rq :: post -> url rq = LAMATIC_URL ->
     exists r t wrq, net_whisper net = Fulfilled r /\ ok r = true /\
                     json r = Fulfilled (JsonValue t) /\
                     url wrq = WHISPER_URL /\ pre = [Fetch wrq]).
Proof.
  intros w'. subst w'. split.
  - intros r Hw Hok. split.
    + destruct (processAudio_log w net) as (l & Hl & Hcases).
      rewrite (new_effects_app _ _ _ Hl).
      destruct Hcases as [-> | (blob & _ & [[e ->] | [-> | Hrel]])];
        try reflexivity.
      destruct Hrel as (r' & t & Hw' & Hok' & _). congruence.
    + intros Hpre. apply precondition_ok_true in Hpre.
      destruct Hpre as (blob & Hb & Hk & He).
      unfold exec.
      rewrite (processAudio_transcription_failed w net r blob) by done.
      cbn [fst snd page message]. split; [done|]. split; [reflexivity|].
      eexists. split; [|apply new_effects_app; reflexivity]. reflexivity.
  - intros pre rq post Hnew Hurl.
    destruct (processAudio_log w net) as (l & Hl & Hcases).
    rewrite (new_effects_app _ _ _ Hl) in Hnew. clear Hl.
    destruct Hcases as [-> | (blob & _ & [[e ->] | [-> | Hrel]])].
    + destruct pre; discriminate Hnew.
    + destruct pre as [|? [|? [|? ?]]]; try discriminate Hnew.
      injection Hnew as <- _. discriminate Hurl.
    + destruct pre as [|? [|? ?]]; try discriminate Hnew.
      injection Hnew as <- _. discriminate Hurl.
    + destruct Hrel as (r & t & Hw & Hok & Hj & [-> | [e ->]]);
        exists r, t; eexists; (split; [exact Hw|]); (split; [exact Hok|]);
        (split; [exact Hj|]).
      * destruct pre as [|? [|? [|? ?]]]; try discriminate Hnew.
        -- injection Hnew as <- _. discriminate Hurl.
        -- injection Hnew as <- _ _. split; [|reflexivity]; reflexivity.
      * destruct pre as [|? [|? [|? [|? ?]]]]; try discriminate Hnew.
        -- injection Hnew as <- _. discriminate Hurl.
        -- injection Hnew as <- _ _. split; [|reflexivity]; reflexivity.
Qed.

Lemma failed_transcription_never_relays_witness :
  count_effects (is_fetch_to LAMATIC_URL)
    (new_effects ready_world (exec (processAudio net_500) ready_world)) = 0%nat
  /\ message (page (exec (processAudio net_500) ready_world))
     = lit "Error: Transcription failed".
Proof.
  destruct (failed_transcription_never_relays ready_world net_500) as [H _].
  destruct (H resp_500 eq_refl eq_refl) as [Hcount Hrest].
  destruct (Hrest eq_refl) as (_ & Hmsg & _).
  split; [exact Hcount | exact Hmsg].
Defined.

(** C3. A run of [processAudio] that passes its check and settles ends
    with [isProcessing] false, and it settles by returning: every error is
    caught inside.  When the transcription service answers 500, the run
    settles, the message is [Error: Transcription failed], the transcript
    is what it was before and [isProcessing] is false. *)
Theorem processing_flag_cleared w net :
  precondition_ok (page w) = true ->
  let c := fst (processAudio net w) in
  let w' := exec (processAudio net) w in
  (settled c = true -> c = Normal tt /\ isProcessing (page w') = false) /\
  (forall r, net_whisper net = Fulfilled r -> status r = 500 ->
     settled c = true /\
     isProcessing (page w') = false /\
     transcription (page w') = transcription (page w) /\
     message (page w') = lit "Error: Transcription failed" /\
     lit "Error" `prefix_of` message (page w')).
Proof.
  intros Hpre c w'. subst c w'.
  apply precondition_ok_true in Hpre. destruct Hpre as (blob & Hb & Hk & He).
  split.
  - intros Hs. eapply processAudio_settles_cleared; eauto.
  - intros r Hw Hst. apply ok_500 in Hst. unfold exec.
    rewrite (processAudio_transcription_failed w net r blob) by done.
    cbn [fst snd page message isProcessing transcription settled].
    repeat split. exists (lit ": Transcription failed"). reflexivity.
Qed.

Lemma processing_flag_cleared_witness :
  isProcessing (page (exec (processAudio net_500) ready_world)) = false /\
  transcription (page (exec (processAudio net_500) ready_world)) = Str [] /\
  isProcessing (page (exec (processAudio net_ok) ready_world)) = false.
Proof.
  destruct (processing_flag_cleared ready_world net_500 eq_refl) as [_ H].
  destruct (H resp_500 eq_refl eq_refl) as (_ & Hflag & Htr & _).
  destruct (processing_flag_cleared ready_world net_ok eq_refl) as [H' _].
  destruct (H' eq_refl) as [_ Hflag'].
  split; [exact Hflag | split; [exact Htr | exact Hflag']].
Defined.

(** ** Starting and stopping *)

Lemma new_effects_same w : new_effects w w = [].
Proof. unfold new_effects. apply drop_all. Qed.

Lemma truthy_empty s : s = [] -> truthy s = false.
Proof. intros ->. reflexivity. Qed.

(** C4. While the email is invalid or the API key is empty, a click on the
    start control does not reach [startRecording]: the world is left as it
    was, so neither the microphone stream nor the tab audio stream is
    requested. *)
Theorem start_rejected_without_credentials w env :
  validateEmail (email (page w)) = false \/ apiKey (page w) = [] ->
  step w (ClickStart env) = w /\
  count_effects is_stream_request
    (new_effects w (step w (ClickStart env))) = 0%nat.
Proof.
  intros Hbad.
  assert (Hsame : step w (ClickStart env) = w).
  { simpl. unfold click_start, start_button.
    destruct (negb (isRecording (page w)) && negb (hasAudio (page w)));
      [|reflexivity].
    cbn [clickable disabled].
    destruct Hbad as [He | Hk].
    - rewrite He. cbn [negb]. rewrite orb_true_r. reflexivity.
    - rewrite (truthy_empty _ Hk). reflexivity. }
  split; [exact Hsame|]. rewrite Hsame, new_effects_same. reflexivity.
Qed.

Lemma start_rejected_without_credentials_witness :
  step init_world (ClickStart env_granted) = init_world /\
  step (exec (setApiKey (lit "sk-test")) init_world) (ClickStart env_granted)
  = exec (setApiKey (lit "sk-test")) init_world.
Proof.
  split.
  - apply (start_rejected_without_credentials init_world env_granted).
    right. reflexivity.
  - apply (start_rejected_without_credentials
             (exec (setApiKey (lit "sk-test")) init_world) env_granted).
    left. reflexivity.
Defined.

(** C9. When [isRecording] is false, in the initial state among others,
    [stopRecording] returns normally and changes nothing: no artifact, no
    call to the recorder, the same flags, transcript and message.  A click
    cannot even reach it, since the DONE control is not rendered. *)
Theorem stop_when_not_recording_is_noop w :
  isRecording (page w) = false ->
  stopRecording w = (Normal tt, w) /\ step w ClickDone = w.
Proof.
  intros Hrec. split.
  - unfold stopRecording, bind, get_page. cbn.
    destruct (mediaRecorderRef (page w)); rewrite ?Hrec; reflexivity.
  - simpl. unfold click_done, done_button. rewrite Hrec. reflexivity.
Qed.

Lemma stop_when_not_recording_is_noop_witness :
  stopRecording init_world = (Normal tt, init_world) /\
  audioBlob (page (step init_world ClickDone)) = None.
Proof.
  destruct (stop_when_not_recording_is_noop init_world eq_refl) as [H1 H2].
  split; [exact H1 | rewrite H2; reflexivity].
Defined.

(** When the tab audio request fails after the microphone was granted,
    [startRecording] reports the error and leaves [isRecording] alone, but
    it stops no track: every track of the microphone stream stays live. *)
Lemma startRecording_tab_denied w env mic e :
  env_mic env = Fulfilled mic -> env_tab env = Rejected e ->
  startRecording env w =
  (Normal tt,
   mkWorld
     (mkPage (isRecording (page w)) (audioBlob (page w)) (apiKey (page w))
             (email (page w)) (transcription (page w)) (isProcessing (page w))
             (lit "Error: Could not start recording. Please check permissions.")
             (hasAudio (page w)) (mediaRecorderRef (page w))
             (audioChunksRef (page w)))
     (recorders w)
     (list_to_set (stream_tracks mic) ∪ live_tracks w)
     (open_contexts w)
     (log w ++ [GetUserMedia; GetDisplayMedia;
                ConsoleError "Error starting recording:" e])).
Proof.
  intros Hm Ht. unfold_run. rewrite Hm. cbn. rewrite Ht. cbn.
  rewrite <- !app_assoc. reflexivity.
Qed.

(** C5 (the code at the failing input). With the microphone granted and
    the tab audio request denied, [startRecording] sets the error message
    and leaves [isRecording] as it was, and the microphone stream is not
    released: all its tracks are live afterwards and no [track.stop()] was
    called. *)
Theorem startRecording_leaks_microphone w env mic e :
  env_mic env = Fulfilled mic -> env_tab env = Rejected e ->
  let w' := exec (startRecording env) w in
  isRecording (page w') = isRecording (page w) /\
  message (page w') =
    lit "Error: Could not start recording. Please check permissions." /\
  (forall t, t ∈ stream_tracks mic -> t ∈ live_tracks w') /\
  (forall t, TrackStop t ∉ new_effects w w').
Proof.
  intros Hm Ht w'. subst w'. unfold exec.
  rewrite (startRecording_tab_denied w env mic e Hm Ht).
  cbn [snd page isRecording message live_tracks].
  split; [reflexivity|]. split; [reflexivity|]. split.
  - intros t Hin. apply elem_of_union. left.
    apply elem_of_list_to_set. exact Hin.
  - intros t. erewrite new_effects_app by reflexivity.
    intros Hin. repeat (apply elem_of_cons in Hin as [Hin | Hin];
                        [discriminate Hin|]).
    inversion Hin.
Qed.

Lemma startRecording_leaks_microphone_witness :
  1%nat ∈ live_tracks (exec (startRecording env_tab_denied) filled_world) /\
  isRecording (page (exec (startRecording env_tab_denied) filled_world))
  = false.
Proof.
  destruct (startRecording_leaks_microphone filled_world env_tab_denied
              {| stream_tracks := [1%nat] |} (Error "Permission denied")
              eq_refl eq_refl) as (Hrec & _ & Hlive & _).
  split.
  - apply Hlive. simpl. left.
  - rewrite Hrec. reflexivity.
Defined.

(** The same when the mixing graph cannot be built: both streams and the
    audio context are left open. *)
Lemma startRecording_graph_failure_leaks w env mic tab ctx e :
  env_mic env = Fulfilled mic -> env_tab env = Fulfilled tab ->
  env_ctx env = Returns ctx -> env_graph env = Throws e ->
  let w' := exec (startRecording env) w in
  isRecording (page w') = isRecording (page w) /\
  message (page w') =
    lit "Error: Could not start recording. Please check permissions." /\
  live_tracks w' =
    list_to_set (stream_tracks tab) ∪
    (list_to_set (stream_tracks mic) ∪ live_tracks w) /\
  open_contexts w' = {[ctx]} ∪ open_contexts w.
Proof.
  intros Hm Ht Hc Hg. unfold_run.
  rewrite Hm. cbn. rewrite Ht. cbn. rewrite Hc. cbn. rewrite Hg. cbn. done.
Qed.

(** ** What each event can change *)

Lemma step_keeps {X} (f : World -> X) w e :
  (forall v, respects (same f) (setApiKey v)) ->
  (forall v, respects (same f) (setEmail v)) ->
  (forall env, respects (same f) (startRecording env)) ->
  respects (same f) stopRecording ->
  (forall net, respects (same f) (processAudio net)) ->
  (forall data, respects (same f) (ondataavailable data)) ->
  (forall r, e <> Stopped r) ->
  f (step w e) = f w.
Proof.
  intros Hkey Hemail Hstart Hstop Hproc Hdata Hne.
  destruct e as [s | s | env | | net | r data | r]; simpl.
  - apply Hkey.
  - apply Hemail.
  - unfold click_start. case_match; [apply Hstart | reflexivity].
  - unfold click_done. case_match; [apply Hstop | reflexivity].
  - unfold click_process. case_match; [apply Hproc | reflexivity].
  - unfold deliver_data. repeat case_match; try reflexivity; apply Hdata.
  - destruct (Hne r). reflexivity.
Qed.

Lemma deliver_stop_page w r rc :
  recorders w !! r = Some rc -> rec_state rc = Stopping ->
  page (step w (Stopped r)) =
  mkPage (isRecording (page w))
         (Some (new_Blob (audioChunksRef (page w)) "audio/webm"))
         (apiKey (page w)) (email (page w)) (transcription (page w))
         (isProcessing (page w)) (message (page w)) true
         (mediaRecorderRef (page w)) (audioChunksRef (page w)).
Proof.
  intros Hr Hs. simpl. unfold deliver_stop. rewrite Hr, Hs.
  unfold exec, onstop. unfold bind at 1. cbn [update_recorder].
  unfold bind at 1. cbn [get_page page].
  unfold bind at 1. cbn [setAudioBlob modify_page page].
  unfold bind at 1. cbn [setHasAudio modify_page page].
  pose proof (respects_for_each (same page) (stream_tracks (rec_mic rc))
                track_stop) as Hmic.
  pose proof (respects_for_each (same page) (stream_tracks (rec_tab rc))
                track_stop) as Htab.
  match goal with
  | |- page (snd ((?m1 ;; ?m2 ;; ?m3) ?w0)) = _ =>
      assert (H : respects (same page) (m1 ;; m2 ;; m3))
        by (respects_tac);
      rewrite (H w0)
  end.
  reflexivity.
Qed.

Lemma deliver_stop_disabled w r :
  (forall rc, recorders w !! r = Some rc -> rec_state rc <> Stopping) ->
  step w (Stopped r) = w.
Proof.
  intros H. simpl. unfold deliver_stop.
  destruct (recorders w !! r) as [rc|] eqn:Hr; [|reflexivity].
  specialize (H rc eq_refl). destruct (rec_state rc); congruence.
Qed.

(** A [stop] event either is not due and changes nothing, or installs the
    artifact assembled from the buffer. *)
Lemma deliver_stop_cases w r :
  step w (Stopped r) = w \/
  exists rc, recorders w !! r = Some rc /\ rec_state rc = Stopping /\
    page (step w (Stopped r)) =
    mkPage (isRecording (page w))
           (Some (new_Blob (audioChunksRef (page w)) "audio/webm"))
           (apiKey (page w)) (email (page w)) (transcription (page w))
           (isProcessing (page w)) (message (page w)) true
           (mediaRecorderRef (page w)) (audioChunksRef (page w)).
Proof.
  destruct (recorders w !! r) as [rc|] eqn:Hr.
  - destruct (rec_state rc) eqn:Hs.
    + left. apply deliver_stop_disabled. intros rc' E. congruence.
    + right. exists rc. split; [done|]. split; [done|]. by apply (deliver_stop_page w r rc).
    + left. apply deliver_stop_disabled. intros rc' E. congruence.
  - left. apply deliver_stop_disabled. intros rc' E. congruence.
Qed.

(** ** The artifact and the transcript *)

(** C6 (as stated, refuted). After a processing attempt that settled, in
    success and in failure alike, the page still holds the artifact. *)
Lemma artifact_survives_processing :
  precondition_ok (page ready_world) = true /\
  settled (fst (processAudio net_ok ready_world)) = true /\
  audioBlob (page (exec (processAudio net_ok) ready_world)) = Some sample_blob /\
  settled (fst (processAudio net_500 ready_world)) = true /\
  audioBlob (page (exec (processAudio net_500) ready_world)) = Some sample_blob /\
  audioBlob (page (exec (processAudio net_500) ready_world)) <> None.
Proof. repeat split; try reflexivity. discriminate. Qed.

(** C6 (amended). [audioBlob] is [null] at first.  [processAudio] leaves it
    as it was, however the run ends.  The only event that changes it is the
    [stop] event of a recorder, which replaces it by the artifact just
    assembled: nothing sets it back to [null]. *)
Theorem artifact_kept_by_processing :
  audioBlob (page init_world) = None /\
  (forall w net,
     audioBlob (page (exec (processAudio net) w)) = audioBlob (page w)) /\
  (forall w e,
     audioBlob (page (step w e)) = audioBlob (page w) \/
     exists r, e = Stopped r /\
       audioBlob (page (step w e)) =
       Some (new_Blob (audioChunksRef (page w)) "audio/webm")).
Proof.
  split; [reflexivity|]. split.
  - intros w net. apply (processAudio_keeps_audioBlob net w).
  - intros w e.
    assert (Hother : (forall r, e <> Stopped r) ->
                     audioBlob (page (step w e)) = audioBlob (page w)).
    { intros Hne. apply (step_keeps the_audioBlob); try exact Hne;
        intros; respects_tac. }
    destruct e as [s | s | env | | net | r data | r];
      try (left; apply Hother; intros r' E; discriminate E).
    destruct (deliver_stop_cases w r) as [-> | (rc & _ & _ & Hp)].
    + left. reflexivity.
    + right. exists r. rewrite Hp. done.
Qed.

(** ** One capture, from start to artifact *)

Lemma total_size_cons b cs :
  total_size (b :: cs) = (blob_size b + total_size cs)%nat.
Proof. reflexivity. Qed.


Lemma total_size_app cs1 cs2 :
  total_size (cs1 ++ cs2) = (total_size cs1 + total_size cs2)%nat.
Proof.
  induction cs1 as [|b cs1 IH]; [reflexivity|].
  rewrite <- app_comm_cons, !total_size_cons, IH. lia.
Qed.


Lemma run_app w es1 es2 : run w (es1 ++ es2) = run (run w es1) es2.
Proof. apply fold_left_app. Qed.

Lemma start_capture w env mic tab ctx :
  clickable (start_button (page w)) = true -> works env mic tab ctx ->
  capture (step w (ClickStart env)) (length (recorders w)) Recording true [].
Proof.
  intros Hclick (Hm & Ht & Hc & Hg & Hr & Hs).
  simpl. unfold click_start. rewrite Hclick. unfold_run.
  rewrite Hm. cbn. rewrite Ht. cbn. rewrite Hc. cbn. rewrite Hg. cbn.
  rewrite Hr. cbn. rewrite Hs. cbn.
  unfold capture. cbn. repeat split.
  exists (mkRecorder Recording mic tab ctx). split; [|reflexivity].
  rewrite list_lookup_alter_eq, list_lookup_middle by reflexivity. reflexivity.
Qed.

Lemma data_capture w r s b cs data :
  s <> Inactive -> capture w r s b cs ->
  capture (step w (DataAvailable r data)) r s b (cs ++ filter nonempty [data]).
Proof.
  intros Hs ((rc & Hr & Hst) & Href & Hrec & Hcs).
  simpl. unfold deliver_data. rewrite Hr, Hst.
  assert (Hgoal : capture (exec (ondataavailable data) w) r s b
                    (cs ++ filter nonempty [data])).
  { unfold exec, ondataavailable. rewrite filter_cons, filter_nil.
    unfold nonempty at 1.
    destruct (decide (0 < blob_size data)%nat); unfold_run; cbn.
    - unfold capture. cbn. rewrite Hcs. eauto 10.
    - rewrite app_nil_r. unfold capture. eauto 10. }
  destruct s; [exact Hgoal | exact Hgoal | congruence].
Qed.

Lemma run_data_capture r s b datas : forall w cs,
  s <> Inactive -> capture w r s b cs ->
  capture (run w (map (DataAvailable r) datas)) r s b
          (cs ++ filter nonempty datas).
Proof.
  induction datas as [|d datas IH]; intros w cs Hs Hcap.
  - simpl. rewrite app_nil_r. exact Hcap.
  - cbn [map run fold_left]. change (d :: datas) with ([d] ++ datas).
    rewrite filter_app, app_assoc. apply IH; [exact Hs|].
    apply data_capture; assumption.
Qed.

Lemma done_capture w r cs :
  capture w r Recording true cs ->
  capture (step w ClickDone) r Stopping false cs.
Proof.
  intros ((rc & Hr & Hst) & Href & Hrec & Hcs).
  simpl. unfold click_done, done_button. rewrite Hrec. cbn [clickable disabled negb].
  unfold exec, stopRecording, bind at 1, get_page. rewrite Href, Hrec.
  unfold bind at 1, recorder_stop. rewrite Hr, Hst. unfold_run. cbn.
  unfold capture. cbn. repeat split; try assumption.
  exists (set_rec_state Stopping rc). split; [|reflexivity].
  rewrite list_lookup_alter_eq, Hr. reflexivity.
Qed.

Lemma stop_capture w r b cs :
  capture w r Stopping b cs ->
  audioBlob (page (step w (Stopped r))) = Some (new_Blob cs "audio/webm").
Proof.
  intros ((rc & Hr & Hst) & _ & _ & Hcs).
  rewrite (deliver_stop_page w r rc Hr Hst). cbn. rewrite Hcs. reflexivity.
Qed.

(** ** hasAudio *)



Lemma handlers_keep_hasAudio :
  (forall env, respects (same the_hasAudio) (startRecording env)) /\
  respects (same the_hasAudio) stopRecording /\
  (forall net, respects (same the_hasAudio) (processAudio net)).
Proof. repeat split; intros; respects_tac. Qed.


(** Between the click on DONE and the [stop] event of the recorder,
    [hasAudio] is still false and the start control is rendered. *)
Example start_offered_until_stop_event :
  let w := run filled_world [ClickStart env_granted; ClickDone] in
  hasAudio (page w) = false /\
  start_button (page w) = Some {| disabled := false |} /\
  start_button (page (step w (Stopped 0))) = None.
Proof. repeat split; reflexivity. Qed.

(** ** The scenario of the specification, end to end *)

Example end_to_end :
  let w := run filled_world
             [ClickStart env_granted; ClickDone;
              DataAvailable 0 sample_blob; Stopped 0; ClickProcess net_ok] in
  transcription (page w) = Str (lit "hello world") /\
  message (page w) =
    lit "Success! Audio processed and sent to Lamatic AI. Check your email for results." /\
  isProcessing (page w) = false /\
  count_effects (is_fetch_to WHISPER_URL) (log w) = 1%nat /\
  count_effects (is_fetch_to LAMATIC_URL) (log w) = 1%nat /\
  live_tracks w = ∅.
Proof. vm_compute. repeat split. Qed.

(** * Further properties of the page *)

(** ** validateEmail: the ends of the string *)

Lemma spec_email_first s :
  spec_email_pattern s -> exists c s', s = c :: s' /\ plain c.
Proof.
  intros (l & d & t & -> & Hl & Pl & _).
  destruct l as [|c l]; [congruence|].
  inversion Pl; subst. eauto.
Qed.

Lemma spec_email_last s :
  spec_email_pattern s -> exists s' c, s = s' ++ [c] /\ plain c.
Proof.
  intros (l & d & t & -> & _ & _ & _ & _ & Ht & Pt).
  destruct (exists_last Ht) as (t' & c & ->).
  apply Forall_app in Pt as [_ Pc]. inversion Pc; subst.
  exists (l ++ AT :: d ++ DOT :: t'), c. split; [|assumption].
  rewrite <- !app_assoc. simpl. rewrite <- !app_assoc. reflexivity.
Qed.

Lemma not_plain c : is_space c = true \/ c = AT -> ~ plain c.
Proof. intros [Hs | ->] [Hns Hna]; congruence. Qed.

(** X1. The address is not trimmed: a string that begins or ends with a
    whitespace character or with "@" is rejected, whatever lies between. *)
Theorem validateEmail_not_trimmed s c :
  is_space c = true \/ c = AT ->
  validateEmail (c :: s) = false /\ validateEmail (s ++ [c]) = false.
Proof.
  intros Hc. apply not_plain in Hc.
  split; apply not_true_is_false; intros V; apply validateEmail_iff in V.
  - apply spec_email_first in V as (c' & s' & E & Hp).
    injection E as -> _. contradiction.
  - apply spec_email_last in V as (s' & c' & E & Hp).
    apply app_inj_tail in E as [_ ->]. contradiction.
Qed.

Lemma validateEmail_not_trimmed_witness :
  validateEmail (32 :: lit "a@b.co") = false /\
  validateEmail (lit "a@b.co" ++ [32]) = false.
Proof.
  apply (validateEmail_not_trimmed (lit "a@b.co") 32). left. reflexivity.
Defined.

(** X2. An accepted address has at least five code units: a string of
    four or fewer is rejected. *)
Theorem validateEmail_min_length s :
  (length s < 5)%nat -> validateEmail s = false.
Proof.
  intros Hlen. apply not_true_is_false. intros V.
  apply validateEmail_iff in V.
  destruct V as (l & d & t & -> & Hl & _ & Hd & _ & Ht & _).
  rewrite length_app in Hlen. cbn [length] in Hlen.
  rewrite length_app in Hlen. cbn [length] in Hlen.
  destruct l; [congruence|]. destruct d; [congruence|].
  destruct t; [congruence|]. cbn [length] in Hlen. lia.
Qed.

Lemma validateEmail_min_length_witness : validateEmail (lit "a@.b") = false.
Proof. apply validateEmail_min_length. vm_compute. lia. Defined.

(** ** The controls *)

Lemma truthy_true s : truthy s = true <-> s <> [].
Proof. destruct s; unfold truthy; split; congruence. Qed.

Lemma start_clickable_inv p :
  clickable (start_button p) = true ->
  isRecording p = false /\ hasAudio p = false /\
  truthy (apiKey p) = true /\ validateEmail (email p) = true.
Proof.
  unfold start_button.
  destruct (isRecording p), (hasAudio p); cbn [negb andb clickable disabled];
    try discriminate.
  rewrite negb_true_iff, orb_false_iff, !negb_false_iff. tauto.
Qed.

(** X3. The start control takes a click exactly when the page is not
    recording, holds no recording yet, the API key is not empty and the
    email has the accepted form. *)
Theorem start_clickable_iff p :
  clickable (start_button p) = true <->
  isRecording p = false /\ hasAudio p = false /\
  apiKey p <> [] /\ spec_email_pattern (email p).
Proof.
  rewrite <- truthy_true, <- validateEmail_iff. unfold start_button.
  destruct (isRecording p), (hasAudio p); cbn [negb andb clickable disabled];
    try (split; [discriminate | intros (? & ? & _); discriminate]).
  rewrite negb_true_iff, orb_false_iff, !negb_false_iff. tauto.
Qed.

Lemma start_clickable_iff_witness :
  clickable (start_button (page filled_world)) = true.
Proof.
  apply (start_clickable_iff (page filled_world)).
  split; [reflexivity|]. split; [reflexivity|]. split; [discriminate|].
  apply validateEmail_iff. reflexivity.
Defined.

(** X4. In every state exactly one of the three controls is rendered:
    DONE while recording, otherwise Process once a recording exists, and
    Start before that. *)
Theorem one_control_rendered p :
  (isRecording p = true /\
   start_button p = None /\ is_Some (done_button p) /\ process_button p = None)
  \/
  (isRecording p = false /\ hasAudio p = true /\
   start_button p = None /\ done_button p = None /\ is_Some (process_button p))
  \/
  (isRecording p = false /\ hasAudio p = false /\
   is_Some (start_button p) /\ done_button p = None /\ process_button p = None).
Proof.
  unfold start_button, done_button, process_button.
  destruct (isRecording p), (hasAudio p); cbn [negb andb];
    [left | left | right; left | right; right];
    repeat split; try reflexivity; eexists; reflexivity.
Qed.

(** ** startRecording: every way it can end *)

Lemma startRecording_not_works w env :
  ~ (exists mic tab ctx, works env mic tab ctx) ->
  isRecording (page (exec (startRecording env) w)) = isRecording (page w) /\
  (settled (fst (startRecording env w)) = true ->
   fst (startRecording env w) = Normal tt /\
   message (page (exec (startRecording env) w)) = START_FAILED) /\
  (settled (fst (startRecording env w)) = false ->
   page (exec (startRecording env) w) = page w).
Proof.
  intros Hnot. unfold_run.
  destruct (env_mic env) as [mic | e |] eqn:Hm; cbn;
    [|repeat split; auto; discriminate..].
  destruct (env_tab env) as [tab | e |] eqn:Ht; cbn;
    [|repeat split; auto; discriminate..].
  destruct (env_ctx env) as [ctx | e] eqn:Hc; cbn;
    [|repeat split; auto; discriminate].
  destruct (env_graph env) as [[] | e] eqn:Hg; cbn;
    [|repeat split; auto; discriminate].
  destruct (env_recorder env) as [[] | e] eqn:Hr; cbn;
    [|repeat split; auto; discriminate].
  destruct (env_start env) as [[] | e] eqn:Hs; cbn;
    [|repeat split; auto; discriminate].
  destruct Hnot. exists mic, tab, ctx. unfold works. auto 10.
Qed.

Lemma startRecording_works w env mic tab ctx :
  works env mic tab ctx ->
  fst (startRecording env w) = Normal tt /\
  isRecording (page (exec (startRecording env) w)) = true /\
  message (page (exec (startRecording env) w)) = STARTED.
Proof.
  intros (Hm & Ht & Hc & Hg & Hr & Hs). unfold_run.
  rewrite Hm. cbn. rewrite Ht. cbn. rewrite Hc. cbn. rewrite Hg. cbn.
  rewrite Hr. cbn. rewrite Hs. cbn. auto.
Qed.

Lemma works_dec env :
  (exists mic tab ctx, works env mic tab ctx) \/
  ~ (exists mic tab ctx, works env mic tab ctx).
Proof.
  unfold works.
  destruct (env_mic env) as [mic | e |];
    [|right; intros (? & ? & ? & H & _); discriminate H..].
  destruct (env_tab env) as [tab | e |];
    [|right; intros (? & ? & ? & _ & H & _); discriminate H..].
  destruct (env_ctx env) as [ctx | e];
    [|right; intros (? & ? & ? & _ & _ & H & _); discriminate H].
  destruct (env_graph env) as [[] | e];
    [|right; intros (? & ? & ? & _ & _ & _ & H & _); discriminate H].
  destruct (env_recorder env) as [[] | e];
    [|right; intros (? & ? & ? & _ & _ & _ & _ & H & _); discriminate H].
  destruct (env_start env) as [[] | e];
    [|right; intros (? & ? & ? & _ & _ & _ & _ & _ & H); discriminate H].
  left. exists mic, tab, ctx. auto 10.
Qed.

(** X6. When the microphone request is refused, the tab audio request is
    never made: the run makes the one request, logs the error, sets the
    error message and changes nothing else; no track, context or recorder
    exists afterwards that did not exist before. *)
Theorem startRecording_mic_denied w env e :
  env_mic env = Rejected e ->
  let w' := exec (startRecording env) w in
  new_effects w w' =
    [GetUserMedia; ConsoleError "Error starting recording:" e] /\
  message (page w') = START_FAILED /\
  page w' =
    mkPage (isRecording (page w)) (audioBlob (page w)) (apiKey (page w))
           (email (page w)) (transcription (page w)) (isProcessing (page w))
           START_FAILED (hasAudio (page w)) (mediaRecorderRef (page w))
           (audioChunksRef (page w)) /\
  live_tracks w' = live_tracks w /\
  open_contexts w' = open_contexts w /\
  recorders w' = recorders w.
Proof.
  intros Hm w'. subst w'. unfold_run. rewrite Hm. cbn.
  split; [apply new_effects_app; cbn; rewrite <- app_assoc; reflexivity|].
  repeat split.
Qed.

Lemma startRecording_mic_denied_witness :
  count_effects is_stream_request
    (new_effects filled_world
       (exec (startRecording
                {| env_mic := Rejected (Error "Permission denied");
                   env_tab := Fulfilled {| stream_tracks := [2%nat] |};
                   env_ctx := Returns 0%nat; env_graph := Returns tt;
                   env_recorder := Returns tt; env_start := Returns tt |})
             filled_world)) = 1%nat.
Proof.
  destruct (startRecording_mic_denied filled_world
              {| env_mic := Rejected (Error "Permission denied");
                 env_tab := Fulfilled {| stream_tracks := [2%nat] |};
                 env_ctx := Returns 0%nat; env_graph := Returns tt;
                 env_recorder := Returns tt; env_start := Returns tt |}
              (Error "Permission denied") eq_refl) as [H _].
  cbv zeta in H. rewrite H. reflexivity.
Defined.

(** X7. From a page that is not recording, [startRecording] ends with
    [isRecording] true exactly when all six browser calls work: both
    stream requests are granted and the audio context, the mixing graph,
    the recorder and its start succeed.  Then the message announces the
    recording; in every other run that settles, the error is caught and
    the message is the fixed start error. *)
Theorem startRecording_succeeds_iff w env :
  isRecording (page w) = false ->
  let w' := exec (startRecording env) w in
  (isRecording (page w') = true <-> exists mic tab ctx, works env mic tab ctx)
  /\
  (isRecording (page w') = true -> message (page w') = STARTED) /\
  (isRecording (page w') = false ->
   settled (fst (startRecording env w)) = true ->
   fst (startRecording env w) = Normal tt /\ message (page w') = START_FAILED).
Proof.
  intros Hrec w'. subst w'.
  destruct (works_dec env) as [(mic & tab & ctx & Hw) | Hnot].
  - destruct (startRecording_works w env mic tab ctx Hw) as (Hc & Hr & Hmsg).
    rewrite Hr. split; [split; eauto|]. split; [auto | discriminate].
  - destruct (startRecording_not_works w env Hnot) as (Hr & Hset & _).
    rewrite Hr, Hrec. split; [split; [discriminate | contradiction]|].
    split; [discriminate | auto].
Qed.

Lemma startRecording_succeeds_iff_witness :
  isRecording (page (exec (startRecording env_granted) filled_world)) = true /\
  message (page (exec (startRecording env_tab_denied) filled_world))
  = START_FAILED.
Proof.
  destruct (startRecording_succeeds_iff filled_world env_granted eq_refl)
    as ([_ Hyes] & _ & _).
  destruct (startRecording_succeeds_iff filled_world env_tab_denied eq_refl)
    as (_ & _ & Hno).
  split.
  - apply Hyes. exists {| stream_tracks := [1%nat] |},
      {| stream_tracks := [2%nat] |}, 0%nat. repeat split.
  - apply Hno; reflexivity.
Defined.

Lemma startRecording_frame env :
  respects (same (fun w => apiKey (page w))) (startRecording env) /\
  respects (same (fun w => email (page w))) (startRecording env) /\
  respects (same (fun w => isProcessing (page w))) (startRecording env).
Proof. repeat split; respects_tac. Qed.

(** X8. A run of [startRecording] that fails or never settles leaves the
    three controls exactly as they were rendered: the start control that
    took the click still takes one, so the user can try again. *)
Theorem startRecording_failure_keeps_controls w env :
  ~ (exists mic tab ctx, works env mic tab ctx) ->
  let w' := exec (startRecording env) w in
  start_button (page w') = start_button (page w) /\
  done_button (page w') = done_button (page w) /\
  process_button (page w') = process_button (page w).
Proof.
  intros Hnot w'. subst w'.
  destruct (startRecording_not_works w env Hnot) as (Hrec & _ & _).
  destruct (startRecording_frame env) as (Hkey & Hmail & Hproc).
  destruct handlers_keep_hasAudio as (Haudio & _ & _).
  specialize (Hkey w). specialize (Hmail w). specialize (Hproc w).
  specialize (Haudio env w). unfold same, the_hasAudio in *. cbn beta in *.
  unfold exec in *. unfold start_button, done_button, process_button.
  rewrite Hrec, Hkey, Hmail, Hproc, Haudio. auto.
Qed.

Lemma startRecording_failure_keeps_controls_witness :
  clickable (start_button
               (page (exec (startRecording env_tab_denied) filled_world)))
  = true.
Proof.
  destruct (startRecording_failure_keeps_controls filled_world env_tab_denied)
    as (H & _ & _).
  - intros (mic & tab & ctx & _ & Ht & _). discriminate Ht.
  - rewrite H. reflexivity.
Defined.

(** ** The stop event: what it releases *)

Lemma world_eta w :
  mkWorld (page w) (recorders w) (live_tracks w) (open_contexts w) (log w) = w.
Proof. destruct w. reflexivity. Qed.

Lemma for_each_track_stop l : forall w,
  for_each l track_stop w =
  (Normal tt,
   mkWorld (page w) (recorders w) (live_tracks w ∖ list_to_set l)
           (open_contexts w) (log w ++ map TrackStop l)).
Proof.
  induction l as [|t l IH]; intros w.
  - cbn. rewrite app_nil_r, difference_empty_L, world_eta. reflexivity.
  - cbn [for_each]. unfold bind at 1, track_stop. unfold_run. cbn.
    rewrite IH. cbn. f_equal. f_equal.
    + apply difference_difference_l_L.
    + rewrite <- app_assoc. reflexivity.
Qed.

Lemma deliver_stop_world w r rc :
  recorders w !! r = Some rc -> rec_state rc = Stopping ->
  step w (Stopped r) =
  mkWorld
    (mkPage (isRecording (page w))
            (Some (new_Blob (audioChunksRef (page w)) "audio/webm"))
            (apiKey (page w)) (email (page w)) (transcription (page w))
            (isProcessing (page w)) (message (page w)) true
            (mediaRecorderRef (page w)) (audioChunksRef (page w)))
    (alter (set_rec_state Inactive) r (recorders w))
    ((live_tracks w ∖ list_to_set (stream_tracks (rec_mic rc)))
       ∖ list_to_set (stream_tracks (rec_tab rc)))
    (open_contexts w ∖ {[rec_ctx rc]})
    (log w ++ map TrackStop (recorder_tracks rc) ++ [ContextClose (rec_ctx rc)]).
Proof.
  intros Hr Hs. simpl. unfold deliver_stop. rewrite Hr, Hs.
  unfold exec, onstop. unfold bind at 1. cbn [update_recorder].
  unfold bind at 1. cbn [get_page page].
  unfold bind at 1. cbn [setAudioBlob modify_page page].
  unfold bind at 1. cbn [setHasAudio modify_page page].
  unfold bind at 1. rewrite for_each_track_stop.
  unfold bind at 1. rewrite for_each_track_stop.
  unfold_run. cbn. unfold recorder_tracks.
  rewrite map_app, <- !app_assoc. reflexivity.
Qed.

(** X9. The [stop] event of a recorder releases what its capture holds:
    afterwards none of the tracks of its microphone and tab streams is
    live and its audio context is closed, every other track is live
    exactly if it was before, the calls made are one [track.stop()] per
    track and one [close()], and the recorder is inactive. *)
Theorem stop_event_releases w r rc :
  recorders w !! r = Some rc -> rec_state rc = Stopping ->
  let w' := step w (Stopped r) in
  (forall t, t ∈ recorder_tracks rc -> t ∉ live_tracks w') /\
  (rec_ctx rc ∉ open_contexts w') /\
  (forall t, t ∉ recorder_tracks rc ->
             (t ∈ live_tracks w' <-> t ∈ live_tracks w)) /\
  new_effects w w' =
    map TrackStop (recorder_tracks rc) ++ [ContextClose (rec_ctx rc)] /\
  recorders w' !! r = Some (set_rec_state Inactive rc).
Proof.
  intros Hr Hs w'. subst w'. rewrite (deliver_stop_world w r rc Hr Hs).
  cbn [live_tracks open_contexts recorders]. unfold recorder_tracks.
  split; [|split; [|split; [|split]]].
  - intros t Ht. apply elem_of_app in Ht. set_solver.
  - set_solver.
  - intros t Ht. rewrite elem_of_app in Ht. set_solver.
  - apply new_effects_app. reflexivity.
  - rewrite list_lookup_alter_eq, Hr. reflexivity.
Qed.

Lemma stop_event_releases_witness :
  (1%nat ∉ live_tracks
            (step (run filled_world [ClickStart env_granted; ClickDone])
                  (Stopped 0))) /\
  (2%nat ∉ live_tracks
            (step (run filled_world [ClickStart env_granted; ClickDone])
                  (Stopped 0))).
Proof.
  destruct (stop_event_releases
              (run filled_world [ClickStart env_granted; ClickDone]) 0
              (mkRecorder Stopping {| stream_tracks := [1%nat] |}
                          {| stream_tracks := [2%nat] |} 0)
              eq_refl eq_refl) as (H & _).
  split; apply H; unfold recorder_tracks; simpl.
  - left.
  - right. left.
Defined.

(** ** DONE while recording *)

Lemma done_world w r rc :
  recorders w !! r = Some rc -> rec_state rc = Recording ->
  mediaRecorderRef (page w) = Some r -> isRecording (page w) = true ->
  step w ClickDone =
  mkWorld
    (mkPage false (audioBlob (page w)) (apiKey (page w)) (email (page w))
            (transcription (page w)) (isProcessing (page w))
            (lit "Recording stopped. Click " ++
             DQUOTE :: lit "Process Audio" ++ DQUOTE :: lit " to transcribe.")
            (hasAudio (page w)) (mediaRecorderRef (page w))
            (audioChunksRef (page w)))
    (alter (set_rec_state Stopping) r (recorders w))
    (live_tracks w) (open_contexts w) (log w ++ [RecorderStop r]).
Proof.
  intros Hr Hst Href Hrec.
  simpl. unfold click_done, done_button. rewrite Hrec.
  cbn [clickable disabled negb].
  unfold exec, stopRecording, bind at 1, get_page. rewrite Href, Hrec.
  unfold bind at 1, recorder_stop. rewrite Hr, Hst. unfold_run. cbn.
  rewrite Href. reflexivity.
Qed.

(** X10. A click on DONE while the page follows a recording recorder
    calls [stop()] on that recorder once and nothing else, clears
    [isRecording] and sets the stopped message.  The artifact and
    [hasAudio] are not touched yet: they wait for the [stop] event. *)
Theorem done_stops_recorder w r cs :
  capture w r Recording true cs ->
  let w' := step w ClickDone in
  new_effects w w' = [RecorderStop r] /\
  isRecording (page w') = false /\
  message (page w') =
    lit "Recording stopped. Click " ++
    DQUOTE :: lit "Process Audio" ++ DQUOTE :: lit " to transcribe." /\
  audioBlob (page w') = audioBlob (page w) /\
  hasAudio (page w') = hasAudio (page w) /\
  audioChunksRef (page w') = cs.
Proof.
  intros ((rc & Hr & Hst) & Href & Hrec & Hcs) w'. subst w'.
  rewrite (done_world w r rc Hr Hst Href Hrec).
  split; [apply new_effects_app; reflexivity|].
  cbn. repeat split; assumption.
Qed.

Lemma done_stops_recorder_witness :
  new_effects (step filled_world (ClickStart env_granted))
    (step (step filled_world (ClickStart env_granted)) ClickDone)
  = [RecorderStop 0].
Proof.
  destruct (done_stops_recorder
              (step filled_world (ClickStart env_granted)) 0 []) as [H _].
  - unfold capture. repeat split. eexists. split; reflexivity.
  - exact H.
Defined.

(** ** The bytes of the artifact *)

Lemma concat_bytes_filter cs :
  concat (map blob_bytes (filter nonempty cs)) = concat (map blob_bytes cs).
Proof.
  induction cs as [|b cs IH]; [reflexivity|].
  rewrite filter_cons. unfold nonempty at 1.
  destruct (decide (0 < blob_size b)%nat) as [Hpos | Hzero]; cbn [map concat].
  - rewrite IH. reflexivity.
  - rewrite IH. unfold blob_size in Hzero.
    destruct (blob_bytes b); [reflexivity | cbn [length] in Hzero; lia].
Qed.

Lemma capture_artifact w env mic tab ctx chunks1 chunks2 :
  clickable (start_button (page w)) = true -> works env mic tab ctx ->
  let r := length (recorders w) in
  audioBlob (page (run w (ClickStart env :: map (DataAvailable r) chunks1 ++
                          ClickDone :: map (DataAvailable r) chunks2 ++
                          [Stopped r])))
  = Some (new_Blob (filter nonempty chunks1 ++ filter nonempty chunks2)
                   "audio/webm").
Proof.
  intros Hclick Hworks r.
  pose proof (start_capture w env mic tab ctx Hclick Hworks) as H1.
  fold r in H1.
  apply (run_data_capture r Recording true chunks1) in H1; [|discriminate].
  apply done_capture in H1.
  apply (run_data_capture r Stopping false chunks2) in H1; [|discriminate].
  apply stop_capture in H1.
  cbn [run fold_left]. change (fold_left step ?es ?w0) with (run w0 es).
  rewrite run_app. cbn [run fold_left].
  change (fold_left step ?es ?w0) with (run w0 es).
  rewrite run_app. cbn [run fold_left]. exact H1.
Qed.

(** X11. Over a whole capture the artifact is the data the recorder
    delivered, byte for byte and in order: its bytes are the bytes of the
    chunks delivered while recording followed by those delivered after
    DONE, up to the [stop] event.  Dropping the empty chunks loses
    nothing. *)
Theorem artifact_is_the_delivered_data w env mic tab ctx chunks1 chunks2 :
  clickable (start_button (page w)) = true -> works env mic tab ctx ->
  let r := length (recorders w) in
  let w' := run w (ClickStart env :: map (DataAvailable r) chunks1 ++
                   ClickDone :: map (DataAvailable r) chunks2 ++
                   [Stopped r]) in
  exists b, audioBlob (page w') = Some b /\
    blob_bytes b = concat (map blob_bytes (chunks1 ++ chunks2)).
Proof.
  intros Hclick Hworks r w'. subst w'. eexists.
  split; [apply (capture_artifact w env mic tab ctx); assumption|].
  cbn [new_Blob blob_bytes].
  rewrite !map_app, !concat_app, !concat_bytes_filter. reflexivity.
Qed.

Lemma artifact_is_the_delivered_data_witness :
  exists b,
    audioBlob (page (run filled_world
                       [ClickStart env_granted; DataAvailable 0 sample_blob;
                        ClickDone; DataAvailable 0 sample_blob; Stopped 0]))
    = Some b /\
    blob_bytes b = [Byte.x1a; Byte.x45; Byte.xdf; Byte.x1a; Byte.x45; Byte.xdf].
Proof.
  exact (artifact_is_the_delivered_data filled_world env_granted
           {| stream_tracks := [1%nat] |} {| stream_tracks := [2%nat] |} 0%nat
           [sample_blob] [sample_blob] eq_refl
           (conj eq_refl (conj eq_refl (conj eq_refl
              (conj eq_refl (conj eq_refl eq_refl)))))).
Defined.

(** ** processAudio: every way it can end *)

Lemma precondition_ok_false p :
  precondition_ok p = false ->
  audioBlob p = None \/
  negb (truthy (apiKey p)) || negb (validateEmail (email p)) = true.
Proof.
  unfold precondition_ok. destruct (audioBlob p); [|auto].
  destruct (truthy (apiKey p)), (validateEmail (email p)); cbn; auto.
Qed.

Lemma processAudio_rejected_world w net :
  precondition_ok (page w) = false ->
  processAudio net w =
  (Normal tt,
   mkWorld
     (mkPage (isRecording (page w)) (audioBlob (page w)) (apiKey (page w))
             (email (page w)) (transcription (page w)) (isProcessing (page w))
             REJECTED (hasAudio (page w)) (mediaRecorderRef (page w))
             (audioChunksRef (page w)))
     (recorders w) (live_tracks w) (open_contexts w) (log w)).
Proof.
  intros Hpre. apply precondition_ok_false in Hpre. unfold_run.
  destruct Hpre as [Hb | Hc].
  - rewrite Hb. cbn. rewrite Hb. reflexivity.
  - destruct (audioBlob (page w)) eqn:Hb; cbn; rewrite ?Hc; cbn;
      rewrite Hb; reflexivity.
Qed.

(** X12. When the check at the head of [processAudio] fails (no artifact,
    an empty API key or an email that is not accepted) the run makes no
    request and returns at once: it sets the message that asks for the
    three inputs and changes nothing else on the page, [isProcessing] and
    the transcript included. *)
Theorem processAudio_rejected w net :
  precondition_ok (page w) = false ->
  let w' := exec (processAudio net) w in
  fst (processAudio net w) = Normal tt /\
  new_effects w w' = [] /\
  page w' =
    mkPage (isRecording (page w)) (audioBlob (page w)) (apiKey (page w))
           (email (page w)) (transcription (page w)) (isProcessing (page w))
           REJECTED (hasAudio (page w)) (mediaRecorderRef (page w))
           (audioChunksRef (page w)).
Proof.
  intros Hpre w'. subst w'. unfold exec.
  rewrite (processAudio_rejected_world w net Hpre). cbn [fst snd page].
  split; [reflexivity|]. split; [|reflexivity].
  apply new_effects_app. cbn. rewrite app_nil_r. reflexivity.
Qed.

Lemma processAudio_rejected_witness :
  new_effects init_world (exec (processAudio net_ok) init_world) = [] /\
  message (page (exec (processAudio net_ok) init_world)) = REJECTED.
Proof.
  destruct (processAudio_rejected init_world net_ok eq_refl) as (_ & H1 & H2).
  split; [exact H1 | rewrite H2; reflexivity].
Defined.

Lemma processAudio_success w net blob r t r2 :
  audioBlob (page w) = Some blob ->
  truthy (apiKey (page w)) = true ->
  validateEmail (email (page w)) = true ->
  net_whisper net = Fulfilled r -> ok r = true ->
  json r = Fulfilled (JsonValue t) ->
  net_lamatic net = Fulfilled r2 -> ok r2 = true ->
  processAudio net w =
  (Normal tt,
   mkWorld
     (mkPage (isRecording (page w)) (Some blob) (apiKey (page w))
             (email (page w)) t false SUCCESS
             (hasAudio (page w)) (mediaRecorderRef (page w))
             (audioChunksRef (page w)))
     (recorders w) (live_tracks w) (open_contexts w)
     (log w ++
      [Fetch (whisper_request (apiKey (page w))
                (new_File [blob] "recording.webm" "audio/webm"));
       Fetch (lamatic_request t (email (page w)))])).
Proof.
  intros Hb Hk He Hw Hok Hj Hl Hok2. unfold_run.
  rewrite Hb, Hk, He. cbn. rewrite Hw. cbn. rewrite Hok. cbn.
  rewrite Hj. cbn. rewrite Hl. cbn. rewrite Hok2. cbn.
  rewrite <- app_assoc, ?Hb. reflexivity.
Qed.

(** X13. When both services answer with a success, the run makes exactly
    two requests, in this order: the artifact as the file
    [recording.webm] with the model [whisper-1] and the API key as bearer
    token to the transcription service, then the answered text and the
    email to the workflow service.  It ends with the answered text as
    transcript, the success message and [isProcessing] false. *)
Theorem processAudio_both_succeed w net blob r t r2 :
  audioBlob (page w) = Some blob ->
  truthy (apiKey (page w)) = true ->
  validateEmail (email (page w)) = true ->
  net_whisper net = Fulfilled r -> ok r = true ->
  json r = Fulfilled (JsonValue t) ->
  net_lamatic net = Fulfilled r2 -> ok r2 = true ->
  let w' := exec (processAudio net) w in
  fst (processAudio net w) = Normal tt /\
  new_effects w w' =
    [Fetch {| url := WHISPER_URL; method := "POST";
              headers := [("Authorization"%string,
                           lit "Bearer " ++ apiKey (page w))];
              body := FormData
                [("file"%string,
                  FormFile {| file_bytes := blob_bytes blob;
                              file_name := "recording.webm";
                              file_type := "audio/webm" |});
                 ("model"%string, FormString (lit "whisper-1"))] |};
     Fetch {| url := LAMATIC_URL; method := "POST";
              headers := [("Content-Type"%string, lit "application/json")];
              body := JsonBody (lit "your-workflow-id") t (email (page w)) |}]
  /\
  transcription (page w') = t /\
  message (page w') = SUCCESS /\
  isProcessing (page w') = false.
Proof.
  intros Hb Hk He Hw Hok Hj Hl Hok2 w'. subst w'. unfold exec.
  rewrite (processAudio_success w net blob r t r2) by assumption.
  cbn [fst snd page transcription message isProcessing].
  split; [reflexivity|]. split; [|auto].
  erewrite new_effects_app by reflexivity.
  unfold whisper_request, lamatic_request, new_File. cbn [map concat].
  rewrite app_nil_r. reflexivity.
Qed.

Lemma processAudio_both_succeed_witness :
  transcription (page (exec (processAudio net_ok) ready_world))
  = Str (lit "hello world") /\
  message (page (exec (processAudio net_ok) ready_world)) = SUCCESS.
Proof.
  destruct (processAudio_both_succeed ready_world net_ok sample_blob
              resp_hello (Str (lit "hello world")) resp_200
              eq_refl eq_refl eq_refl eq_refl eq_refl eq_refl eq_refl eq_refl)
    as (_ & _ & Ht & Hm & _).
  split; [exact Ht | exact Hm].
Defined.

Lemma error_not_success x : lit "Error: " ++ x <> SUCCESS.
Proof. intros H. unfold SUCCESS, lit in H. simpl in H. discriminate H. Qed.

Lemma transcribing_not_success : lit "Transcribing audio..." <> SUCCESS.
Proof. intros H. vm_compute in H. discriminate H. Qed.

Lemma sending_not_success :
  lit "Transcription complete. Sending to Lamatic AI..." <> SUCCESS.
Proof. intros H. vm_compute in H. discriminate H. Qed.

(** X14. After a run that passed the check, the transcript is the text
    the transcription service answered whenever its response was ok and
    parsed, whatever happens to the relay afterwards (it may fail, be
    refused or never answer); in every other case the transcript is what
    it was before. *)
Theorem transcript_after_processing w net :
  precondition_ok (page w) = true ->
  transcription (page (exec (processAudio net) w)) =
  match answered_text net with
  | Some text => text
  | None => transcription (page w)
  end.
Proof.
  intros Hpre. apply precondition_ok_true in Hpre.
  destruct Hpre as (blob & Hb & Hk & He).
  unfold answered_text. unfold_run. rewrite Hb, Hk, He. cbn.
  destruct (net_whisper net) as [r | e |]; cbn; try reflexivity.
  destruct (ok r); cbn; try reflexivity.
  destruct (json r) as [[|t] | e |]; cbn; try reflexivity.
  destruct (net_lamatic net) as [r2 | e |]; cbn; try reflexivity.
  destruct (ok r2); reflexivity.
Qed.

Lemma transcript_after_processing_witness :
  transcription
    (page (exec (processAudio
                   {| net_whisper := Fulfilled resp_hello;
                      net_lamatic := Fulfilled resp_500 |}) ready_world))
  = Str (lit "hello world").
Proof.
  exact (transcript_after_processing ready_world
           {| net_whisper := Fulfilled resp_hello;
              net_lamatic := Fulfilled resp_500 |} eq_refl).
Defined.

(** X15. After a run that passed the check, the message is the success
    message exactly when the transcription response was ok and parsed and
    the relay response was ok.  A run that settled otherwise leaves a
    message that begins with [Error: ]. *)
Theorem success_message_iff w net :
  precondition_ok (page w) = true ->
  let w' := exec (processAudio net) w in
  (message (page w') = SUCCESS <->
   is_Some (answered_text net) /\ relay_ok net = true) /\
  (settled (fst (processAudio net w)) = true ->
   message (page w') <> SUCCESS ->
   lit "Error: " `prefix_of` message (page w')).
Proof.
  intros Hpre w'. subst w'. apply precondition_ok_true in Hpre.
  destruct Hpre as (blob & Hb & Hk & He).
  unfold answered_text, relay_ok. unfold_run. rewrite Hb, Hk, He. cbn.
  pose proof error_not_success as Herr.
  pose proof transcribing_not_success as Htr.
  pose proof sending_not_success as Hse.
  assert (Hnone : ~ is_Some (@None JsVal)) by (intros [? ?]; discriminate).
  destruct (net_whisper net) as [r | e |]; cbn.
  - destruct (ok r); cbn.
    + destruct (json r) as [[|t] | e |]; cbn.
      * split; [split; [intros H; destruct (Herr _ H) | intros [H _]; tauto]|].
        intros _ _. eexists. reflexivity.
      * destruct (net_lamatic net) as [r2 | e |]; cbn.
        -- destruct (ok r2); cbn.
           ++ split; [split; [eauto | reflexivity]|]. intros _ H. tauto.
           ++ split; [split; [intros H; destruct (Herr _ H)
                             | intros [_ H]; discriminate H]|].
              intros _ _. eexists. reflexivity.
        -- split; [split; [intros H; destruct (Herr _ H)
                          | intros [_ H]; discriminate H]|].
           intros _ _. eexists. reflexivity.
        -- split; [split; [intros H; destruct (Hse H)
                          | intros [_ H]; discriminate H]|].
           discriminate.
      * split; [split; [intros H; destruct (Herr _ H) | intros [H _]; tauto]|].
        intros _ _. eexists. reflexivity.
      * split; [split; [intros H; destruct (Htr H) | intros [H _]; tauto]|].
        discriminate.
    + split; [split; [intros H; destruct (Herr _ H) | intros [H _]; tauto]|].
      intros _ _. eexists. reflexivity.
  - split; [split; [intros H; destruct (Herr _ H) | intros [H _]; tauto]|].
    intros _ _. eexists. reflexivity.
  - split; [split; [intros H; destruct (Htr H) | intros [H _]; tauto]|].
    discriminate.
Qed.

Lemma success_message_iff_witness :
  message (page (exec (processAudio net_ok) ready_world)) = SUCCESS /\
  lit "Error: " `prefix_of`
    message (page (exec (processAudio net_500) ready_world)).
Proof.
  destruct (success_message_iff ready_world net_ok eq_refl) as [[_ Hyes] _].
  destruct (success_message_iff ready_world net_500 eq_refl) as [[Hno _] Herr].
  split.
  - apply Hyes. split; [eexists; reflexivity | reflexivity].
  - apply Herr; [reflexivity|]. intros H. apply Hno in H as [[t Ht] _].
    discriminate Ht.
Defined.

(** X16. A run of [processAudio] never repeats a request: it makes at most
    one request to the transcription service and at most one to the
    workflow service.  The API key goes only into the bearer header of
    the transcription request; the workflow request carries the answered
    text and the email and no authorization header. *)
Theorem processAudio_requests w net :
  let l := new_effects w (exec (processAudio net) w) in
  (count_effects (is_fetch_to WHISPER_URL) l <= 1)%nat /\
  (count_effects (is_fetch_to LAMATIC_URL) l <= 1)%nat /\
  (forall rq, Fetch rq ∈ l ->
     (exists blob, audioBlob (page w) = Some blob /\
        rq = whisper_request (apiKey (page w))
               (new_File [blob] "recording.webm" "audio/webm")) \/
     (exists t, answered_text net = Some t /\
        rq = lamatic_request t (email (page w)))).
Proof.
  intros l. subst l.
  destruct (processAudio_log w net) as (l & Hl & Hcases).
  rewrite (new_effects_app _ _ _ Hl). clear Hl.
  destruct Hcases as [-> | (blob & Hb & [[e ->] | [-> | Hrel]])].
  - split; [cbn; lia|]. split; [cbn; lia|]. intros rq H. inversion H.
  - split; [vm_compute; lia|]. split; [vm_compute; lia|].
    intros rq H. left. exists blob. split; [exact Hb|].
    apply elem_of_cons in H as [H | H]; [congruence|].
    apply elem_of_cons in H as [H | H]; [discriminate H | inversion H].
  - split; [vm_compute; lia|]. split; [vm_compute; lia|].
    intros rq H. left. exists blob. split; [exact Hb|].
    apply elem_of_cons in H as [H | H]; [congruence | inversion H].
  - destruct Hrel as (r & t & Hw & Hok & Hj & Hl).
    assert (Ht : answered_text net = Some t).
    { unfold answered_text. rewrite Hw, Hok, Hj. reflexivity. }
    destruct Hl as [-> | [e ->]].
    + split; [vm_compute; lia|]. split; [vm_compute; lia|].
      intros rq H.
      apply elem_of_cons in H as [H | H]; [left; exists blob; split; congruence|].
      apply elem_of_cons in H as [H | H]; [right; exists t; split; congruence|].
      inversion H.
    + split; [vm_compute; lia|]. split; [vm_compute; lia|].
      intros rq H.
      apply elem_of_cons in H as [H | H]; [left; exists blob; split; congruence|].
      apply elem_of_cons in H as [H | H]; [right; exists t; split; congruence|].
      apply elem_of_cons in H as [H | H]; [discriminate H | inversion H].
Qed.

Lemma processAudio_requests_witness :
  (count_effects (is_fetch_to WHISPER_URL)
     (new_effects ready_world (exec (processAudio net_ok) ready_world)) <= 1)%nat
  /\
  (count_effects (is_fetch_to LAMATIC_URL)
     (new_effects ready_world (exec (processAudio net_ok) ready_world)) <= 1)%nat.
Proof.
  destruct (processAudio_requests ready_world net_ok) as (H1 & H2 & _).
  split; [exact H1 | exact H2].
Defined.

(** ** While a request is running *)

Lemma step_isProcessing w e :
  isProcessing (page w) = true -> isProcessing (page (step w e)) = true.
Proof.
  intros Hp.
  assert (Hstart : forall env,
             respects (same (fun w => isProcessing (page w)))
                      (startRecording env)) by apply startRecording_frame.
  assert (Hstop : respects (same (fun w => isProcessing (page w)))
                           stopRecording) by respects_tac.
  assert (Hdata : forall data,
             respects (same (fun w => isProcessing (page w)))
                      (ondataavailable data)) by (intros; respects_tac).
  unfold respects, same in Hstart, Hstop, Hdata.
  destruct e as [s | s | env | | net | r data | r].
  - exact Hp.
  - exact Hp.
  - simpl. unfold click_start, exec.
    destruct (clickable (start_button (page w))); [|exact Hp].
    rewrite Hstart. exact Hp.
  - simpl. unfold click_done, exec.
    destruct (clickable (done_button (page w))); [|exact Hp].
    rewrite Hstop. exact Hp.
  - simpl. unfold click_process, process_button.
    rewrite Hp. destruct (hasAudio (page w) && negb (isRecording (page w)));
      exact Hp.
  - simpl. unfold deliver_data, exec.
    destruct (recorders w !! r) as [rc|]; [|exact Hp].
    destruct (rec_state rc); try exact Hp; rewrite Hdata; exact Hp.
  - destruct (deliver_stop_cases w r) as [-> | (rc & _ & _ & Hpage)].
    + exact Hp.
    + rewrite Hpage. exact Hp.
Qed.

(** X17. While [isProcessing] is true, no keystroke, click or recorder
    event changes it, and the Process control takes no click: the flag
    is cleared by the running [processAudio] alone.  A request that never
    completes leaves the page in that state for good. *)
Theorem processing_flag_sticks w es :
  isProcessing (page w) = true ->
  isProcessing (page (run w es)) = true /\
  clickable (process_button (page (run w es))) = false.
Proof.
  intros Hp.
  assert (Hrun : isProcessing (page (run w es)) = true).
  { revert w Hp. induction es as [|e es IH]; intros w Hp; [exact Hp|].
    cbn [run fold_left]. apply IH, step_isProcessing, Hp. }
  split; [exact Hrun|]. unfold process_button. rewrite Hrun.
  destruct (hasAudio (page (run w es)) && negb (isRecording (page (run w es))));
    reflexivity.
Qed.

Lemma processing_flag_sticks_witness :
  isProcessing
    (page (run ready_world
             [ClickProcess {| net_whisper := Pending; net_lamatic := Pending |};
              ClickProcess net_ok; TypeEmail (lit "c@d.ef"); ClickDone]))
  = true.
Proof.
  apply (processing_flag_sticks
           (step ready_world
              (ClickProcess {| net_whisper := Pending; net_lamatic := Pending |}))
           [ClickProcess net_ok; TypeEmail (lit "c@d.ef"); ClickDone]).
  reflexivity.
Defined.

(** ** States the page can reach *)

Lemma run_invariant (Inv : World -> Prop) :
  Inv init_world -> (forall w e, Inv w -> Inv (step w e)) ->
  forall w, reachable w -> Inv w.
Proof.
  intros Hinit Hstep w [es ->].
  assert (H : forall es w0, Inv w0 -> Inv (run w0 es)).
  { clear es. intros es. induction es as [|e es IH]; intros w0 H0; [exact H0|].
    cbn [run fold_left]. apply IH, Hstep, H0. }
  apply H, Hinit.
Qed.

Lemma step_artifact_flag w e :
  (hasAudio (page w) = true <-> is_Some (audioBlob (page w))) ->
  (hasAudio (page (step w e)) = true <-> is_Some (audioBlob (page (step w e)))).
Proof.
  intros Hinv.
  assert (Hother : (forall r, e <> Stopped r) ->
            hasAudio (page (step w e)) = hasAudio (page w) /\
            audioBlob (page (step w e)) = audioBlob (page w)).
  { intros Hne. split.
    - apply (step_keeps the_hasAudio); try exact Hne; intros; respects_tac.
    - apply (step_keeps the_audioBlob); try exact Hne; intros; respects_tac. }
  destruct e as [s | s | env | | net | r data | r];
    try (destruct Hother as [Hh Hb]; [intros r' E; discriminate E|];
         rewrite Hh, Hb; exact Hinv).
  destruct (deliver_stop_cases w r) as [E | (rc & _ & _ & Hpage)].
  - rewrite E. exact Hinv.
  - rewrite Hpage. cbn. split; [eauto | reflexivity].
Qed.

(** X18. In every state the page reaches from its initial state,
    [hasAudio] is true exactly when an artifact is held.  So whenever the
    Process control takes a click, the artifact that [processAudio] asks
    for is there. *)
Theorem artifact_flag_invariant w :
  reachable w ->
  (hasAudio (page w) = true <-> is_Some (audioBlob (page w))) /\
  (clickable (process_button (page w)) = true -> is_Some (audioBlob (page w))).
Proof.
  intros Hreach.
  assert (Hinv : hasAudio (page w) = true <-> is_Some (audioBlob (page w))).
  { revert w Hreach. apply run_invariant.
    - split; [discriminate | intros [b Hb]; discriminate Hb].
    - intros w e. apply step_artifact_flag. }
  split; [exact Hinv|].
  unfold process_button. destruct (hasAudio (page w)); [|discriminate].
  intros _. apply Hinv. reflexivity.
Qed.

Lemma artifact_flag_invariant_witness :
  is_Some (audioBlob
             (page (run init_world
                      [TypeApiKey (lit "sk-test"); TypeEmail (lit "a@b.co");
                       ClickStart env_granted; ClickDone; Stopped 0]))).
Proof.
  destruct (artifact_flag_invariant
              (run init_world
                 [TypeApiKey (lit "sk-test"); TypeEmail (lit "a@b.co");
                  ClickStart env_granted; ClickDone; Stopped 0])) as [_ H].
  - eexists. reflexivity.
  - apply H. reflexivity.
Defined.

Lemma capture_of_start w env :
  clickable (start_button (page w)) = true ->
  isRecording (page (step w (ClickStart env))) = true ->
  exists cs,
    capture (step w (ClickStart env)) (length (recorders w)) Recording true cs.
Proof.
  intros Hclick Hrec.
  destruct (works_dec env) as [(mic & tab & ctx & Hw) | Hnot].
  - exists []. eapply start_capture; eassumption.
  - exfalso. apply start_clickable_inv in Hclick as (Hfalse & _).
    destruct (startRecording_not_works w env Hnot) as (Hsame & _).
    simpl in Hrec. unfold click_start in Hrec.
    destruct (clickable (start_button (page w))); congruence.
Qed.

Lemma step_keeps_recording w e :
  (isRecording (page w) = true ->
   exists r cs, capture w r Recording true cs) ->
  isRecording (page (step w e)) = true ->
  exists r cs, capture (step w e) r Recording true cs.
Proof.
  intros Hinv Hrec.
  assert (Hproc : forall net,
             respects (same (fun w => (isRecording (page w),
                                       mediaRecorderRef (page w),
                                       audioChunksRef (page w), recorders w)))
                      (processAudio net)) by (intros; respects_tac).
  unfold respects, same in Hproc.
  destruct e as [s | s | env | | net | r data | r].
  - destruct (Hinv Hrec) as (r & cs & Hcap). exists r, cs. exact Hcap.
  - destruct (Hinv Hrec) as (r & cs & Hcap). exists r, cs. exact Hcap.
  - destruct (clickable (start_button (page w))) eqn:Hclick.
    + destruct (capture_of_start w env Hclick Hrec) as (cs & Hcap). eauto.
    + simpl in *. unfold click_start in *. rewrite Hclick in *. auto.
  - destruct (isRecording (page w)) eqn:Hw.
    + destruct (Hinv eq_refl) as (r & cs & Hcap).
      apply done_capture in Hcap.
      destruct Hcap as (_ & _ & Hfalse & _). congruence.
    + simpl in *. unfold click_done, done_button in *. rewrite Hw in *.
      cbn in Hrec. congruence.
  - simpl in *. unfold click_process, exec in *.
    destruct (clickable (process_button (page w))); [|auto].
    specialize (Hproc net w). injection Hproc as H1 H2 H3 H4.
    rewrite ?H1, ?H2, ?H3, ?H4 in Hrec.
    destruct (Hinv Hrec) as (r & cs & Hcap).
    exists r, cs. unfold capture in *. rewrite ?H1, ?H2, ?H3, ?H4.
    exact Hcap.
  - assert (Hd : respects (same (fun w => (isRecording (page w),
                                           mediaRecorderRef (page w),
                                           recorders w)))
                          (ondataavailable data)) by respects_tac.
    specialize (Hd w). unfold same in Hd. injection Hd as H1 H2 H3.
    simpl in *. unfold deliver_data, exec in *.
    destruct (recorders w !! r) as [rc|]; [|auto].
    destruct (rec_state rc); auto;
      rewrite ?H1 in Hrec;
      destruct (Hinv Hrec) as (r0 & cs & Hlook & Href & Hr & _);
      eexists r0, _; unfold capture;
      rewrite ?H1, ?H2, ?H3; eauto.
  - destruct (deliver_stop_cases w r) as [E | (rc & Hlook & Hs & Hpage)].
    + rewrite E in *. auto.
    + clear Hpage. rewrite (deliver_stop_world w r rc Hlook Hs) in *.
      cbn in Hrec.
      destruct (Hinv Hrec) as (r0 & cs & (rc0 & Hl0 & Hs0) & Href & Hr & Hcs).
      assert (Hne : r <> r0) by (intros ->; congruence).
      exists r0, cs. unfold capture. cbn.
      rewrite list_lookup_alter_ne by exact Hne. eauto 10.
Qed.

(** X19. In every state the page reaches from its initial state, if
    [isRecording] is true then [mediaRecorderRef] holds a recorder and that
    recorder is recording: a click on DONE always finds a recording to
    stop. *)
Theorem recording_flag_invariant w :
  reachable w -> isRecording (page w) = true ->
  exists r rc, mediaRecorderRef (page w) = Some r /\
               recorders w !! r = Some rc /\ rec_state rc = Recording.
Proof.
  intros Hreach Hrec.
  assert (Hinv : isRecording (page w) = true ->
                 exists r cs, capture w r Recording true cs).
  { clear Hrec. revert w Hreach.
    apply (run_invariant
             (fun w => isRecording (page w) = true ->
                       exists r cs, capture w r Recording true cs)).
    - discriminate.
    - intros w e. apply step_keeps_recording. }
  destruct (Hinv Hrec) as (r & cs & (rc & Hl & Hs) & Href & _).
  exists r, rc. auto.
Qed.

Lemma recording_flag_invariant_witness :
  exists r rc,
    mediaRecorderRef
      (page (run init_world
               [TypeApiKey (lit "sk-test"); TypeEmail (lit "a@b.co");
                ClickStart env_granted])) = Some r /\
    recorders (run init_world
                 [TypeApiKey (lit "sk-test"); TypeEmail (lit "a@b.co");
                  ClickStart env_granted]) !! r = Some rc /\
    rec_state rc = Recording.
Proof.
  apply recording_flag_invariant.
  - eexists. reflexivity.
  - reflexivity.
Defined.

(** ** A whole capture: what it holds and what it gives back *)

Lemma start_world w env mic tab ctx :
  clickable (start_button (page w)) = true -> works env mic tab ctx ->
  step w (ClickStart env) =
  mkWorld
    (mkPage true (audioBlob (page w)) (apiKey (page w)) (email (page w))
            (transcription (page w)) (isProcessing (page w)) STARTED
            (hasAudio (page w)) (Some (length (recorders w))) [])
    (alter (set_rec_state Recording) (length (recorders w))
           (recorders w ++ [mkRecorder Inactive mic tab ctx]))
    (list_to_set (stream_tracks tab) ∪
     (list_to_set (stream_tracks mic) ∪ live_tracks w))
    ({[ctx]} ∪ open_contexts w)
    (log w ++ [GetUserMedia; GetDisplayMedia; NewAudioContext;
               RecorderStart (length (recorders w))]).
Proof.
  intros Hclick (Hm & Ht & Hc & Hg & Hr & Hs).
  simpl. unfold click_start. rewrite Hclick. unfold_run.
  rewrite Hm. cbn. rewrite Ht. cbn. rewrite Hc. cbn. rewrite Hg. cbn.
  rewrite Hr. cbn. rewrite Hs. cbn. rewrite <- !app_assoc. reflexivity.
Qed.

Lemma start_session w env mic tab ctx :
  clickable (start_button (page w)) = true -> works env mic tab ctx ->
  session w (step w (ClickStart env)) (length (recorders w)) Recording
          mic tab ctx.
Proof.
  intros Hclick Hworks. rewrite (start_world w env mic tab ctx Hclick Hworks).
  unfold session. cbn. repeat split.
  rewrite list_lookup_alter_eq, list_lookup_middle by reflexivity. reflexivity.
Qed.

Lemma data_session w0 w r s mic tab ctx r' data :
  session w0 w r s mic tab ctx ->
  session w0 (step w (DataAvailable r' data)) r s mic tab ctx.
Proof.
  intros Hses.
  assert (Hd : respects
                 (same (fun w => (recorders w, live_tracks w, open_contexts w,
                                  apiKey (page w), email (page w),
                                  isProcessing (page w), hasAudio (page w))))
                 (ondataavailable data)) by respects_tac.
  specialize (Hd w). unfold same in Hd.
  simpl. unfold deliver_data, exec.
  destruct (recorders w !! r') as [rc|]; [|exact Hses].
  destruct (rec_state rc); try exact Hses;
    injection Hd as H1 H2 H3 H4 H5 H6 H7; unfold session;
    rewrite ?H1, ?H2, ?H3, ?H4, ?H5, ?H6, ?H7; exact Hses.
Qed.

Lemma run_data_session w0 r s mic tab ctx r' datas : forall w,
  session w0 w r s mic tab ctx ->
  session w0 (run w (map (DataAvailable r') datas)) r s mic tab ctx.
Proof.
  induction datas as [|d datas IH]; intros w Hses; [exact Hses|].
  cbn [map run fold_left]. apply IH, data_session, Hses.
Qed.

Lemma done_session w0 w r mic tab ctx cs :
  session w0 w r Recording mic tab ctx -> capture w r Recording true cs ->
  session w0 (step w ClickDone) r Stopping mic tab ctx.
Proof.
  intros (Hl & Hlive & Hopen & Hkey & Hmail & Hproc & Haudio)
         (_ & Href & Hrec & _).
  rewrite (done_world w r _ Hl eq_refl Href Hrec).
  unfold session. cbn. rewrite list_lookup_alter_eq, Hl. repeat split; auto.
Qed.

Lemma capture_before_stop w env mic tab ctx chunks1 chunks2 :
  clickable (start_button (page w)) = true -> works env mic tab ctx ->
  let r := length (recorders w) in
  let w2 := run w (ClickStart env :: map (DataAvailable r) chunks1 ++
                   ClickDone :: map (DataAvailable r) chunks2) in
  capture w2 r Stopping false
          (filter nonempty chunks1 ++ filter nonempty chunks2) /\
  session w w2 r Stopping mic tab ctx.
Proof.
  intros Hclick Hworks r w2. subst w2.
  pose proof (start_capture w env mic tab ctx Hclick Hworks) as H1.
  pose proof (start_session w env mic tab ctx Hclick Hworks) as S1.
  fold r in H1, S1.
  apply (run_data_capture r Recording true chunks1) in H1; [|discriminate].
  apply (run_data_session w r Recording mic tab ctx r chunks1) in S1.
  pose proof (done_session _ _ _ _ _ _ _ S1 H1) as S2.
  apply done_capture in H1.
  apply (run_data_capture r Stopping false chunks2) in H1; [|discriminate].
  apply (run_data_session w r Stopping mic tab ctx r chunks2) in S2.
  cbn [run fold_left]. change (fold_left step ?es ?w0) with (run w0 es).
  rewrite run_app. cbn [run fold_left].
  change (fold_left step ?es ?w0) with (run w0 es).
  split; [exact H1 | exact S2].
Qed.

Lemma run_snoc w es e : run w (es ++ [e]) = step (run w es) e.
Proof. rewrite run_app. reflexivity. Qed.

(** X20. A capture that starts gives back, at its [stop] event, all it
    took: over start, the chunks, DONE and the [stop] event, none of the
    tracks of the two streams it was granted is live at the end and its
    audio context is closed, while every other track and context is as it
    was before the start. *)
Theorem capture_releases_streams w env mic tab ctx chunks1 chunks2 :
  clickable (start_button (page w)) = true -> works env mic tab ctx ->
  let r := length (recorders w) in
  let w' := run w ((ClickStart env :: map (DataAvailable r) chunks1 ++
                    ClickDone :: map (DataAvailable r) chunks2) ++
                   [Stopped r]) in
  (forall t, t ∈ stream_tracks mic ++ stream_tracks tab ->
             t ∉ live_tracks w') /\
  (ctx ∉ open_contexts w') /\
  (forall t, t ∉ stream_tracks mic ++ stream_tracks tab ->
             (t ∈ live_tracks w' <-> t ∈ live_tracks w)) /\
  (forall c, c <> ctx -> (c ∈ open_contexts w' <-> c ∈ open_contexts w)).
Proof.
  intros Hclick Hworks r w'. subst w'. rewrite run_snoc.
  destruct (capture_before_stop w env mic tab ctx chunks1 chunks2
              Hclick Hworks) as (_ & Hl & Hlive & Hopen & _).
  fold r in Hl, Hlive, Hopen.
  rewrite (deliver_stop_world _ r _ Hl eq_refl).
  cbn [live_tracks open_contexts rec_mic rec_tab rec_ctx].
  rewrite Hlive, Hopen.
  split; [|split; [|split]].
  - intros t Ht. apply elem_of_app in Ht. set_solver.
  - set_solver.
  - intros t Ht. rewrite elem_of_app in Ht. set_solver.
  - intros c Hc. set_solver.
Qed.

Lemma capture_releases_streams_witness :
  1%nat ∉ live_tracks
    (run filled_world
       ((ClickStart env_granted :: map (DataAvailable 0) [] ++
         ClickDone :: map (DataAvailable 0) [sample_blob]) ++
        [Stopped 0])).
Proof.
  destruct (capture_releases_streams filled_world env_granted
              {| stream_tracks := [1%nat] |} {| stream_tracks := [2%nat] |}
              0%nat [] [sample_blob] eq_refl
              (conj eq_refl (conj eq_refl (conj eq_refl
                 (conj eq_refl (conj eq_refl eq_refl))))))
    as (H & _).
  apply H. simpl. left.
Defined.

(** ** From the recorder to the transcription service *)

Lemma processAudio_first_request w net blob :
  audioBlob (page w) = Some blob ->
  truthy (apiKey (page w)) = true ->
  validateEmail (email (page w)) = true ->
  exists rest,
    log (exec (processAudio net) w) =
    log w ++
    Fetch (whisper_request (apiKey (page w))
             (new_File [blob] "recording.webm" "audio/webm")) :: rest.
Proof.
  intros Hb Hk He. unfold_run. rewrite Hb, Hk, He. cbn.
  destruct (net_whisper net) as [r | e |]; cbn;
    try (eexists; rewrite <- ?app_assoc; reflexivity).
  destruct (ok r); cbn;
    try (eexists; rewrite <- ?app_assoc; reflexivity).
  destruct (json r) as [[|t] | e |]; cbn;
    try (eexists; rewrite <- ?app_assoc; reflexivity).
  destruct (net_lamatic net) as [r2 | e |]; cbn;
    try (eexists; rewrite <- ?app_assoc; reflexivity).
  destruct (ok r2); cbn; eexists; rewrite <- ?app_assoc; reflexivity.
Qed.

(** X21. What is recorded is what is sent.  After a whole capture, a
    click on Process (with no request already running) makes its first
    request to the transcription service, whatever the services answer
    later: the file [recording.webm] whose bytes are the chunks the
    recorder delivered, in order, with the model [whisper-1] and the API
    key of the page as bearer token. *)
Theorem recorded_bytes_are_uploaded w env mic tab ctx chunks1 chunks2 net :
  clickable (start_button (page w)) = true -> works env mic tab ctx ->
  isProcessing (page w) = false ->
  let r := length (recorders w) in
  let w' := run w ((ClickStart env :: map (DataAvailable r) chunks1 ++
                    ClickDone :: map (DataAvailable r) chunks2) ++
                   [Stopped r]) in
  exists rest,
    new_effects w' (step w' (ClickProcess net)) =
    Fetch {| url := WHISPER_URL; method := "POST";
             headers := [("Authorization"%string,
                          lit "Bearer " ++ apiKey (page w))];
             body := FormData
               [("file"%string,
                 FormFile {| file_bytes :=
                               concat (map blob_bytes (chunks1 ++ chunks2));
                             file_name := "recording.webm";
                             file_type := "audio/webm" |});
                ("model"%string, FormString (lit "whisper-1"))] |} :: rest.
Proof.
  intros Hclick Hworks Hidle r w'. subst w'. rewrite run_snoc.
  destruct (capture_before_stop w env mic tab ctx chunks1 chunks2
              Hclick Hworks)
    as (((rc & Hl & Hs) & _ & Hrec & Hcs) & _ & _ & _ & Hkey & Hmail & Hproc & _).
  fold r in Hl, Hrec, Hcs, Hkey, Hmail, Hproc.
  remember (run w (ClickStart env :: map (DataAvailable r) chunks1 ++
                   ClickDone :: map (DataAvailable r) chunks2)) as w2 eqn:E2.
  clear E2.
  pose proof (deliver_stop_page w2 r rc Hl Hs) as Hpage.
  remember (step w2 (Stopped r)) as w3 eqn:E3. clear E3.
  apply start_clickable_inv in Hclick as (_ & _ & Hk & Hv).
  assert (Hb : audioBlob (page w3) =
               Some (new_Blob (audioChunksRef (page w2)) "audio/webm"))
    by (rewrite Hpage; reflexivity).
  assert (Hk3 : truthy (apiKey (page w3)) = true)
    by (rewrite Hpage; cbn; rewrite Hkey; exact Hk).
  assert (Hv3 : validateEmail (email (page w3)) = true)
    by (rewrite Hpage; cbn; rewrite Hmail; exact Hv).
  assert (Hc3 : clickable (process_button (page w3)) = true).
  { unfold process_button. rewrite Hpage. cbn.
    rewrite Hrec, Hproc, Hidle. reflexivity. }
  destruct (processAudio_first_request w3 net _ Hb Hk3 Hv3) as (rest & Hlog).
  exists rest. simpl. unfold click_process. rewrite Hc3.
  rewrite (new_effects_app _ _ _ Hlog).
  unfold whisper_request, new_File. cbn [map concat blob_bytes new_Blob].
  rewrite app_nil_r, Hcs, !map_app, !concat_app, !concat_bytes_filter.
  assert (Hk' : apiKey (page w3) = apiKey (page w))
    by (rewrite Hpage; cbn; exact Hkey).
  rewrite Hk'. reflexivity.
Qed.

Lemma recorded_bytes_are_uploaded_witness :
  exists rest,
    new_effects
      (run filled_world
         ((ClickStart env_granted :: map (DataAvailable 0) [sample_blob] ++
           ClickDone :: map (DataAvailable 0) [sample_blob]) ++ [Stopped 0]))
      (step (run filled_world
               ((ClickStart env_granted :: map (DataAvailable 0) [sample_blob] ++
                 ClickDone :: map (DataAvailable 0) [sample_blob]) ++
                [Stopped 0]))
            (ClickProcess net_500)) =
    Fetch {| url := WHISPER_URL; method := "POST";
             headers := [("Authorization"%string, lit "Bearer sk-test")];
             body := FormData
               [("file"%string,
                 FormFile {| file_bytes :=
                               [Byte.x1a; Byte.x45; Byte.xdf;
                                Byte.x1a; Byte.x45; Byte.xdf];
                             file_name := "recording.webm";
                             file_type := "audio/webm" |});
                ("model"%string, FormString (lit "whisper-1"))] |} :: rest.
Proof.
  exact (recorded_bytes_are_uploaded filled_world env_granted
           {| stream_tracks := [1%nat] |} {| stream_tracks := [2%nat] |} 0%nat
           [sample_blob] [sample_blob] net_500 eq_refl
           (conj eq_refl (conj eq_refl (conj eq_refl
              (conj eq_refl (conj eq_refl eq_refl))))) eq_refl).
Defined.

(** ** Processing again *)

Lemma processAudio_frame net :
  respects (same (fun w => (audioBlob (page w), apiKey (page w),
                            email (page w), isRecording (page w),
                            hasAudio (page w))))
           (processAudio net).
Proof. respects_tac. Qed.

(** X22. A processing run that settled, well or badly, can be repeated:
    the artifact, the key and the email are as before and [isProcessing]
    is false, so the Process control that took the click takes one again,
    and the next run starts by sending the same file with the same key. *)
Theorem processing_can_be_repeated w net net' blob :
  audioBlob (page w) = Some blob ->
  truthy (apiKey (page w)) = true ->
  validateEmail (email (page w)) = true ->
  settled (fst (processAudio net w)) = true ->
  let w1 := exec (processAudio net) w in
  precondition_ok (page w1) = true /\
  (clickable (process_button (page w)) = true ->
   clickable (process_button (page w1)) = true) /\
  exists rest,
    new_effects w1 (exec (processAudio net') w1) =
    Fetch (whisper_request (apiKey (page w))
             (new_File [blob] "recording.webm" "audio/webm")) :: rest.
Proof.
  intros Hb Hk He Hset w1. subst w1.
  destruct (processAudio_settles_cleared w net blob Hb Hk He Hset)
    as (_ & Hidle).
  pose proof (processAudio_frame net w) as Hframe. unfold same in Hframe.
  injection Hframe as Hb1 Hk1 He1 Hr1 Ha1.
  fold (exec (processAudio net) w) in Hb1, Hk1, He1, Hr1, Ha1.
  remember (exec (processAudio net) w) as w1 eqn:E. clear E.
  rewrite Hb in Hb1. rewrite <- Hk1 in Hk. rewrite <- He1 in He.
  split; [|split].
  - unfold precondition_ok. rewrite Hb1, Hk, He. reflexivity.
  - unfold process_button. rewrite Hr1, Ha1, Hidle.
    destruct (hasAudio (page w) && negb (isRecording (page w)));
      [reflexivity | discriminate].
  - destruct (processAudio_first_request w1 net' blob Hb1 Hk He)
      as (rest & Hlog).
    exists rest. rewrite (new_effects_app _ _ _ Hlog), Hk1. reflexivity.
Qed.

Lemma processing_can_be_repeated_witness :
  precondition_ok (page (exec (processAudio net_500) ready_world)) = true /\
  clickable (process_button (page (exec (processAudio net_500) ready_world)))
  = true.
Proof.
  destruct (processing_can_be_repeated ready_world net_500 net_ok sample_blob
              eq_refl eq_refl eq_refl eq_refl) as (H1 & H2 & _).
  split; [exact H1 | apply H2; reflexivity].
Defined.

(** X23. The Process control is disabled only while a request runs, not
    by the credentials: with a recording held and an empty key or an
    email that is not accepted, it still takes the click, and the click
    makes no request and only sets the message that asks for the
    inputs. *)
Theorem process_click_without_credentials w net :
  hasAudio (page w) = true -> isRecording (page w) = false ->
  isProcessing (page w) = false ->
  truthy (apiKey (page w)) = false \/ validateEmail (email (page w)) = false ->
  let w' := step w (ClickProcess net) in
  clickable (process_button (page w)) = true /\
  new_effects w w' = [] /\
  message (page w') = REJECTED /\
  isProcessing (page w') = false /\
  transcription (page w') = transcription (page w).
Proof.
  intros Ha Hr Hp Hbad w'. subst w'.
  assert (Hc : clickable (process_button (page w)) = true)
    by (unfold process_button; rewrite Ha, Hr, Hp; reflexivity).
  assert (Hpre : precondition_ok (page w) = false).
  { unfold precondition_ok. destruct (audioBlob (page w)); [|reflexivity].
    destruct Hbad as [-> | ->]; [reflexivity | apply andb_false_r]. }
  split; [exact Hc|]. simpl. unfold click_process, exec. rewrite Hc.
  rewrite (processAudio_rejected_world w net Hpre). cbn.
  split; [apply new_effects_app; cbn; rewrite app_nil_r; reflexivity|].
  auto.
Qed.

Lemma process_click_without_credentials_witness :
  message (page (step (step ready_world (TypeApiKey [])) (ClickProcess net_ok)))
  = REJECTED.
Proof.
  destruct (process_click_without_credentials
              (step ready_world (TypeApiKey [])) net_ok
              eq_refl eq_refl eq_refl (or_introl eq_refl))
    as (_ & _ & H & _).
  exact H.
Defined.

(** X24. Between a click on DONE and the [stop] event of the recorder the
    page is back at the start: with no earlier recording held, the Start
    control is rendered (and takes a click whenever the key and the email
    allow it), and the Process control is not rendered yet. *)
Theorem start_offered_after_done w r cs :
  capture w r Recording true cs -> hasAudio (page w) = false ->
  let w' := step w ClickDone in
  start_button (page w') =
    Some {| disabled := negb (truthy (apiKey (page w)))
                        || negb (validateEmail (email (page w))) |} /\
  done_button (page w') = None /\
  process_button (page w') = None.
Proof.
  intros ((rc & Hl & Hs) & Href & Hrec & _) Ha w'. subst w'.
  rewrite (done_world w r rc Hl Hs Href Hrec).
  unfold start_button, done_button, process_button. cbn. rewrite Ha.
  auto.
Qed.

Lemma start_offered_after_done_witness :
  clickable (start_button
               (page (step (step filled_world (ClickStart env_granted))
                           ClickDone))) = true.
Proof.
  destruct (start_offered_after_done
              (step filled_world (ClickStart env_granted)) 0 []) as (H & _).
  - unfold capture. repeat split. eexists. split; reflexivity.
  - reflexivity.
  - rewrite H. reflexivity.
Defined.

(** ** startRecording, stage by stage *)

#[local] Hint Unfold start_with_streams start_failed : handlers.

(** The stages are the pieces of [startRecording]. *)
Lemma startRecording_stages env w :
  startRecording env w =
  try_catch
    (micStream <- request_stream GetUserMedia (env_mic env) ;;
     tabStream <- request_stream GetDisplayMedia (env_tab env) ;;
     start_with_streams env micStream tabStream)
    start_failed w.
Proof. reflexivity. Qed.

Lemma request_granted call_made stream w :
  request_stream call_made (Fulfilled stream) w =
  (effect call_made ;; granted stream) w.
Proof. reflexivity. Qed.

(** When each promise settles before anything else happens, the stages
    make up the run of [startRecording] that a click starts. *)
Lemma stages_without_delay w env :
  clickable (start_button (page w)) = true ->
  (forall mic tab,
     env_mic env = Fulfilled mic -> env_tab env = Fulfilled tab ->
     arun (mkAsync w [])
          [StartClicked; MicSettled 0 (inr mic); TabSettled 0 (inr tab) env]
     = mkAsync (step w (ClickStart env)) []) /\
  (forall mic e,
     env_mic env = Fulfilled mic -> env_tab env = Rejected e ->
     arun (mkAsync w [])
          [StartClicked; MicSettled 0 (inr mic); TabSettled 0 (inl e) env]
     = mkAsync (step w (ClickStart env)) []) /\
  (forall e,
     env_mic env = Rejected e ->
     arun (mkAsync w []) [StartClicked; MicSettled 0 (inl e)]
     = mkAsync (step w (ClickStart env)) []).
Proof.
  intros Hclick.
  assert (Hstep : step w (ClickStart env) = exec (startRecording env) w).
  { simpl. unfold click_start. rewrite Hclick. reflexivity. }
  rewrite Hstep. clear Hstep.
  split; [|split].
  - intros mic tab Hm Ht. cbn [arun fold_left astep world starts].
    rewrite Hclick. cbn [world starts app lookup list_lookup delete
                         list_delete insert list_insert].
    unfold granted, start_with_streams, start_failed. unfold_run.
    cbn. rewrite Hm. cbn. rewrite Ht. cbn.
    destruct (env_ctx env) as [ctx | e]; cbn; [|reflexivity].
    destruct (env_graph env) as [[] | e]; cbn; [|reflexivity].
    destruct (env_recorder env) as [[] | e]; cbn; [|reflexivity].
    destruct (env_start env) as [[] | e]; cbn; reflexivity.
  - intros mic e Hm Ht. cbn [arun fold_left astep world starts].
    rewrite Hclick. cbn [world starts app lookup list_lookup delete
                         list_delete insert list_insert].
    unfold granted, start_with_streams, start_failed. unfold_run.
    cbn. rewrite Hm. cbn. rewrite Ht. cbn. reflexivity.
  - intros e Hm. cbn [arun fold_left astep world starts].
    rewrite Hclick. cbn [world starts app lookup list_lookup delete
                         list_delete insert list_insert].
    unfold granted, start_with_streams, start_failed. unfold_run.
    cbn. rewrite Hm. cbn. reflexivity.
Qed.


(** ** The transcript when a recording starts *)





(** ** A capture and the starts around it *)










(** ** hasAudio and the start control *)







